(** * The response parser of streamlit_app.py

    A shallow embedding of [parse_analysis_output] and a verification of
    its specification.

    Texts.  A Python [str] is a sequence of code points.  The embedding
    covers the code points below 256 (ASCII and Latin-1): a text is a
    [string], each [ascii] standing for the code point of the same number.
    The character classes of the interpreter ([str.isspace], the line
    boundaries of [str.splitlines], [str.lower]) are written out for that
    range.

    Dictionaries.  [parsed_result] is a [gmap string string]; subscripting
    a dictionary with an absent key raises [KeyError], which the embedding
    keeps as an explicit outcome. *)

From Stdlib Require Import Ascii String.
From stdpp Require Import base option list strings gmap fin_maps.

Local Open Scope char_scope.

(** ** Characters *)

Module Char.

Definition LF : ascii := "010".
Definition CR : ascii := "013".

(** [str.isspace] on one character; also the class [\s] of [re] on a
    [str] pattern.  Below 256 these are TAB, LF, VT, FF, CR, FS, GS, RS,
    US, space, NEL and NBSP. *)
Definition isspace (c : ascii) : bool :=
  match c with
  | "009" | "010" | "011" | "012" | "013"
  | "028" | "029" | "030" | "031" | " "
  | "133" | "160" => true
  | _ => false
  end.

(** The line boundaries of [str.splitlines]: LF, VT, FF, CR, FS, GS, RS
    and NEL. *)
Definition islinebreak (c : ascii) : bool :=
  match c with
  | "010" | "011" | "012" | "013"
  | "028" | "029" | "030" | "133" => true
  | _ => false
  end.

(** [str.lower] on one character: A-Z, and the Latin-1 capitals
    192-222 except the multiplication sign 215, move up by 32. *)
Definition lower (c : ascii) : ascii :=
  let n := nat_of_ascii c in
  if ((65 <=? n)%nat && (n <=? 90)%nat)
     || ((192 <=? n)%nat && (n <=? 222)%nat && negb (n =? 215)%nat)
  then ascii_of_nat (n + 32) else c.

(** The class [.] of [re] without DOTALL: anything but a line feed. *)
Definition dot (c : ascii) : bool := negb (Ascii.eqb c LF).

End Char.

Local Close Scope char_scope.

(** ** The string methods the parser calls *)

Module Str.

Definition nl : string := String Char.LF "".

Fixpoint lstrip (s : string) : string :=
  match s with
  | "" => ""
  | String c s' => if Char.isspace c then lstrip s' else s
  end.

Fixpoint rstrip (s : string) : string :=
  match s with
  | "" => ""
  | String c s' =>
      match rstrip s' with
      | "" => if Char.isspace c then "" else String c ""
      | t => String c t
      end
  end.

(** [s.strip()] *)
Definition strip (s : string) : string := rstrip (lstrip s).

(** [s.lower()] *)
Fixpoint lower (s : string) : string :=
  match s with
  | "" => ""
  | String c s' => String (Char.lower c) (lower s')
  end.

(** [s.startswith(p)] *)
Fixpoint startswith (p s : string) : bool :=
  match p, s with
  | "", _ => true
  | String a p', String b s' => Ascii.eqb a b && startswith p' s'
  | String _ _, "" => false
  end.

(** [s[1:]] *)
Definition tail (s : string) : string :=
  match s with
  | "" => ""
  | String _ s' => s'
  end.

(** Truth value of a string in a condition: non-empty. *)
Definition truthy (s : string) : bool :=
  match s with
  | "" => false
  | String _ _ => true
  end.

Fixpoint all_space (s : string) : bool :=
  match s with
  | "" => true
  | String c s' => Char.isspace c && all_space s'
  end.

(** [s.splitlines()]: the text is cut at every line boundary, CR LF
    counting as one; the boundaries are dropped and a boundary at the
    very end opens no further line. *)
Fixpoint splitlines (s : string) : list string :=
  match s with
  | "" => []
  | String c s' =>
      if Char.islinebreak c then
        "" :: match s' with
              | String c' s'' =>
                  if Ascii.eqb c Char.CR && Ascii.eqb c' Char.LF
                  then splitlines s''
                  else splitlines s'
              | "" => []
              end
      else
        match splitlines s' with
        | [] => [String c ""]
        | l :: ls => String c l :: ls
        end
  end.

End Str.

(** ** The header pattern

    [re.compile(r'^\s*(?P<header>.+?):\s*$', re.IGNORECASE)], matched with
    [match] from the start of the line.  The pattern has no letters, so
    IGNORECASE changes nothing. *)

Module Pattern.

(** [:\s*$] at the current position.  [\s*$] succeeds exactly on a
    rest made of white space only (the [$] before a final line feed is
    covered, a line feed being white space). *)
Definition colon_end (s : string) : bool :=
  match s with
  | "" => false
  | String c after => Ascii.eqb c ":" && Str.all_space after
  end.

(** [(?P<header>.+?):\s*$] from the current position.  The group is
    lazy: it takes one character, and one more each time the rest of the
    pattern fails after it. *)
Fixpoint header_group (s : string) : option string :=
  match s with
  | "" => None
  | String c rest =>
      if Char.dot c then
        if colon_end rest then Some (String c "")
        else String c <$> header_group rest
      else None
  end.

(** [^\s*] in front of it.  The star is greedy: it takes every white
    space character it can and gives them back one at a time when the
    rest fails. *)
Fixpoint header_pattern_match (s : string) : option string :=
  match s with
  | "" => header_group ""
  | String c rest =>
      if Char.isspace c then
        match header_pattern_match rest with
        | Some h => Some h
        | None => header_group s
        end
      else header_group s
  end.

End Pattern.

(** ** Outcomes *)

Inductive result (A : Type) : Type :=
  | Ok (a : A)
  | KeyError (k : string).
Arguments Ok {A} a.
Arguments KeyError {A} k.

(** The error monad of the embedding, under stdpp's [x ← m; k]. *)
Global Instance result_ret : MRet result := λ _ a, Ok a.
Global Instance result_bind : MBind result := λ _ _ f r,
  match r with
  | Ok a => f a
  | KeyError k => KeyError k
  end.

(** [d[k]] *)
Definition getitem (d : gmap string string) (k : string) : result string :=
  match d !! k with
  | Some v => Ok v
  | None => KeyError k
  end.

(** ** parse_analysis_output *)

Definition header_mapping : list (string * string) :=
  [ ("Required knowledge and skills", "QA_Knowledge-and-skills");
    ("Key vocabulary terms", "QA_Key-Vocabulary");
    ("Common misconceptions or challenges", "QA_Common-misconceptions");
    ("Vocabulary Terms", "VA_Vocabulary-Terms");
    ("Definitions", "VA_Definitions");
    ("Special Attention", "VA_Special-Attention");
    ("Teaching Approaches", "IR_Teaching-Approaches");
    ("Scaffolding", "IR_Scaffolding");
    ("Sequencing", "IR_Sequencing") ].

(** [{value: "" for value in header_mapping.values()}] *)
Definition initial_result : gmap string string :=
  foldl (λ d value, <[value := ""]> d) ∅ (header_mapping.*2).

(** The [for ... else] over [header_mapping.items()]: the first entry
    whose label equals the header text once both are lowered gives the
    key; [None] when the loop ends without [break]. *)
Fixpoint find_header (header_text : string) (items : list (string * string))
    : option string :=
  match items with
  | [] => None
  | (expected_header, csv_key) :: items' =>
      if String.eqb (Str.lower header_text) (Str.lower expected_header)
      then Some csv_key
      else find_header header_text items'
  end.

Record loop_state : Type := LoopState {
  parsed_result : gmap string string;
  current_key : option string
}.

(** [if current_key:] is false on [None] and on the empty string. *)
Definition key_set (k : option string) : option string :=
  match k with
  | Some key => if Str.truthy key then Some key else None
  | None => None
  end.

(** One round of [for line in output_text.splitlines()]. *)
Definition loop_body (st : loop_state) (raw : string) : result loop_state :=
  let line := Str.strip raw in
  if negb (Str.truthy line) then Ok st
  else
    match Pattern.header_pattern_match line with
    | Some header =>
        let header_text := Str.strip header in
        Ok (LoopState (parsed_result st) (find_header header_text header_mapping))
    | None =>
        let line :=
          if Str.startswith "-" line || Str.startswith "*" line
          then Str.strip (Str.tail line) else line in
        match key_set (current_key st) with
        | Some key =>
            v ← getitem (parsed_result st) key;
            if Str.truthy v
            then Ok (LoopState (<[key := v +:+ Str.nl +:+ line]> (parsed_result st))
                               (current_key st))
            else Ok (LoopState (<[key := line]> (parsed_result st))
                               (current_key st))
        | None => Ok st
        end
    end.

Fixpoint run_lines (st : loop_state) (lines : list string) : result loop_state :=
  match lines with
  | [] => Ok st
  | raw :: lines' => st' ← loop_body st raw; run_lines st' lines'
  end.

(** The loop over the given lines, then
    [{k: v.strip() for k, v in parsed_result.items()}]. *)
Definition parse_lines (lines : list string) : result (gmap string string) :=
  st ← run_lines (LoopState initial_result None) lines;
  Ok (Str.strip <$> parsed_result st).

Definition parse_analysis_output (output_text : string)
    : result (gmap string string) :=
  parse_lines (Str.splitlines output_text).

(** ** Vocabulary of the specification *)

(** The nine field identifiers. *)
Definition field_keys : gset string :=
  {[ "QA_Knowledge-and-skills"; "QA_Key-Vocabulary"; "QA_Common-misconceptions";
     "VA_Vocabulary-Terms"; "VA_Definitions"; "VA_Special-Attention";
     "IR_Teaching-Approaches"; "IR_Scaffolding"; "IR_Sequencing" ]}.

(** First and last character of a text being white space. *)
Definition starts_space (s : string) : bool :=
  match s with
  | "" => false
  | String c _ => Char.isspace c
  end.

Fixpoint ends_space (s : string) : bool :=
  match s with
  | "" => false
  | String c s' =>
      match s' with
      | "" => Char.isspace c
      | String _ _ => ends_space s'
      end
  end.

(** A raw line that the loop takes as a header with one of the nine
    labels. *)
Definition recognized_header_line (raw : string) : bool :=
  let line := Str.strip raw in
  Str.truthy line &&
  match Pattern.header_pattern_match line with
  | Some header => bool_decide (is_Some (find_header (Str.strip header) header_mapping))
  | None => false
  end.

(** The header text a raw line carries when the loop takes it as a
    header line. *)
Definition header_text_of (raw : string) : option string :=
  let line := Str.strip raw in
  if Str.truthy line
  then Str.strip <$> Pattern.header_pattern_match line
  else None.

(** Joining lines into a text, for writing inputs down. *)
Fixpoint text_of (lines : list string) : string :=
  match lines with
  | [] => ""
  | [l] => l
  | l :: ls => l +:+ Str.nl +:+ text_of ls
  end.

(** No line boundary inside a text. *)
Fixpoint no_linebreak (s : string) : bool :=
  match s with
  | "" => true
  | String c s' => negb (Char.islinebreak c) && no_linebreak s'
  end.

(** The record keeps the nine keys, and the current key, when there is
    one, is among them. *)
Definition loop_inv (st : loop_state) : Prop :=
  dom (parsed_result st) = field_keys ∧
  ∀ key, current_key st = Some key → key ∈ field_keys.

(** Last character of a text being a colon. *)
Fixpoint ends_colon (s : string) : bool :=
  match s with
  | "" => false
  | String c s' =>
      match s' with
      | "" => Ascii.eqb c ":"
      | String _ _ => ends_colon s'
      end
  end.

(** What the loop makes of a body line: one bullet and the white space
    behind it taken off. *)
Definition unbullet (line : string) : string :=
  if Str.startswith "-" line || Str.startswith "*" line
  then Str.strip (Str.tail line) else line.

(** What the loop makes of a field value and a further line. *)
Definition append_line (v line : string) : string :=
  if Str.truthy v then v +:+ Str.nl +:+ line else line.

(** A line that is content as it stands: not empty, no line boundary, no
    white space at either end, no final colon, no bullet in front. *)
Definition plain (b : string) : bool :=
  Str.truthy b && no_linebreak b
  && negb (starts_space b) && negb (ends_space b) && negb (ends_colon b)
  && negb (Str.startswith "-" b) && negb (Str.startswith "*" b).

(** A field of the outcome; nothing when the parser raised. *)
Definition field (key : string) (r : result (gmap string string)) : option string :=
  match r with
  | Ok d => d !! key
  | KeyError _ => None
  end.

(** The two bullet markers. *)
Definition is_bullet (m : ascii) : bool :=
  Ascii.eqb m "-" || Ascii.eqb m "*".

(** A bullet marker, one space, the item. *)
Definition bulleted (m : ascii) (x : string) : string :=
  String m (String " " x).

(** Every item is a bullet marker with a plain text. *)
Definition bullet_items (items : list (ascii * string)) : bool :=
  forallb (λ it, is_bullet it.1 && plain it.2) items.

(** The lines of the items: marker, space, text. *)
Definition bullet_lines (items : list (ascii * string)) : list string :=
  (λ it, bulleted it.1 it.2) <$> items.

(** ** Further string methods, used outside the parser *)

Module StrExt.

(** [needle in hay] on strings: [needle] occurs somewhere in [hay]. *)
Fixpoint contains (needle hay : string) : bool :=
  Str.startswith needle hay ||
  match hay with
  | "" => false
  | String _ hay' => contains needle hay'
  end.

(** [s.split(sep)] for a separator of one character: the parts between
    the separators, in order; never an empty list. *)
Fixpoint split_on (sep : ascii) (s : string) : list string :=
  match s with
  | "" => [""]
  | String c s' =>
      if Ascii.eqb c sep then "" :: split_on sep s'
      else
        match split_on sep s' with
        | [] => [String c ""]
        | part :: parts => String c part :: parts
        end
  end.

(** [parts[-1]]; [None] stands for IndexError. *)
Definition item_last (parts : list string) : option string := last parts.

(** Truth value of [found_model] in a condition: neither [None] nor
    empty. *)
Definition truthy_opt (o : option string) : bool :=
  match o with
  | Some s => Str.truthy s
  | None => false
  end.

End StrExt.

(** ** Choosing the model in generate_analysis *)

(** [model_name.split("/")[-1] if "/" in model_name else model_name];
    [None] stands for IndexError. *)
Definition short_name (model_name : string) : option string :=
  if StrExt.contains "/" model_name
  then StrExt.item_last (StrExt.split_on "/" model_name)
  else Some model_name.

(** What the user is shown through [st.info], [st.warning] and
    [st.error]. *)
Inductive level : Type := Info | Warning | Error.

Record choice : Type := Choice {
  found_model : option string;
  notices : list (level * string)
}.

Definition preferred_models : list string :=
  ["gemini-1.5-flash"; "gemini-1.5-pro"; "text-bison"; "chat-bison"].

(** The first loop: the first available name in which the short name or
    the selected name occurs. *)
Definition match_selection (short_model_name model_name : string)
    (available_model_names : list string) (c : choice) : choice :=
  match find (λ avail_model,
                StrExt.contains short_model_name avail_model
                || StrExt.contains model_name avail_model)
             available_model_names with
  | Some avail_model =>
      Choice (Some avail_model)
             (notices c ++ [(Info, "Using model: " +:+ avail_model)])
  | None => c
  end.

(** The inner loop of the alternatives, for one preferred name. *)
Definition match_preferred (preferred : string)
    (available_model_names : list string) (c : choice) : choice :=
  match find (λ avail_model, StrExt.contains preferred avail_model)
             available_model_names with
  | Some avail_model =>
      Choice (Some avail_model)
             (notices c ++ [(Info, "Using alternative model: " +:+ avail_model)])
  | None => c
  end.

(** The outer loop of the alternatives: the preferred names in order,
    left as soon as a model is found. *)
Fixpoint match_alternatives (preferred : list string)
    (available_model_names : list string) (c : choice) : choice :=
  match preferred with
  | [] => c
  | p :: preferred' =>
      let c' := match_preferred p available_model_names c in
      if StrExt.truthy_opt (found_model c') then c'
      else match_alternatives preferred' available_model_names c'
  end.

(** [if not found_model:] the warning, then the alternatives. *)
Definition seek_alternatives (available_model_names : list string)
    (model_name : string) (c : choice) : choice :=
  if negb (StrExt.truthy_opt (found_model c)) then
    match_alternatives preferred_models available_model_names
      (Choice (found_model c)
         (notices c ++
          [(Warning, "Model '" +:+ model_name
                     +:+ "' not found. Looking for alternative text models...")]))
  else c.

(** [if not found_model and available_model_names:] the first available
    name. *)
Definition take_first (available_model_names : list string) (c : choice)
    : choice :=
  if negb (StrExt.truthy_opt (found_model c)) then
    match available_model_names with
    | first :: _ =>
        Choice (Some first)
          (notices c ++
           [(Warning, "No preferred models found. Using first available model: "
                      +:+ first)])
    | [] => c
    end
  else c.

(** [if not found_model:] the error notice, after which the function
    returns without a model. *)
Definition report_none (c : choice) : choice :=
  if negb (StrExt.truthy_opt (found_model c)) then
    Choice (found_model c)
      (notices c ++ [(Error, "No suitable models found in your account.")])
  else c.

(** The choice of the model, from the list of available names and the
    selected name, up to the point where the model is requested.  No
    model found is [found_model] not true at the end, after the error
    notice. *)
Definition find_model (available_model_names : list string)
    (model_name : string) : option choice :=
  short_model_name ← short_name model_name;
  Some (report_none
          (take_first available_model_names
             (seek_alternatives available_model_names model_name
                (match_selection short_model_name model_name
                   available_model_names (Choice None []))))).

(** ** The CSV export in main

    [csv.DictWriter(csv_buffer, fieldnames=csv_headers)] with the default
    dialect: comma, double quote, QUOTE_MINIMAL, doubled quotes, CR LF at
    the end of a row. *)

Module Csv.

Definition DQ : ascii := "034"%char.

Definition lineterminator : string := String Char.CR (String Char.LF "").

(** The characters that make the writer quote a field: the delimiter,
    the quote character and the characters of the line terminator. *)
Definition special (c : ascii) : bool :=
  Ascii.eqb c "," || Ascii.eqb c DQ || Ascii.eqb c Char.CR || Ascii.eqb c Char.LF.

Fixpoint needs_quote (s : string) : bool :=
  match s with
  | "" => false
  | String c s' => special c || needs_quote s'
  end.

(** Every quote character written twice. *)
Fixpoint double_quotes (s : string) : string :=
  match s with
  | "" => ""
  | String c s' =>
      if Ascii.eqb c DQ then String DQ (String DQ (double_quotes s'))
      else String c (double_quotes s')
  end.

Definition quote_field (s : string) : string :=
  if needs_quote s then String DQ (double_quotes s +:+ String DQ "") else s.

Fixpoint join_fields (fields : list string) : string :=
  match fields with
  | [] => ""
  | [f] => f
  | f :: fields' => f +:+ "," +:+ join_fields fields'
  end.

(** The record of a row: the fields joined; a row of one empty field is
    written as an empty quoted field. *)
Definition record (fields : list string) : string :=
  let rec := join_fields (quote_field <$> fields) in
  match fields with
  | _ :: _ => if Str.truthy rec then rec else String DQ (String DQ "")
  | [] => rec
  end.

(** [writer.writerow(fields)]: what is written to the buffer. *)
Definition writerow (fields : list string) : string :=
  record fields +:+ lineterminator.

(** Reading a record back, field by field: at the start of a field, in
    an unquoted field, in a quoted field, and after a quote inside a
    quoted field.  The result is the field being read and the fields
    after it. *)
Inductive mode : Type := Start | Unquoted | Quoted | QuoteSeen.

Fixpoint read (m : mode) (s : string) : string * list string :=
  match s with
  | "" => ("", [])
  | String c s' =>
      match m with
      | Start =>
          if Ascii.eqb c DQ then read Quoted s'
          else if Ascii.eqb c "," then
            let '(f, fs) := read Start s' in ("", f :: fs)
          else let '(f, fs) := read Unquoted s' in (String c f, fs)
      | Unquoted =>
          if Ascii.eqb c "," then
            let '(f, fs) := read Start s' in ("", f :: fs)
          else let '(f, fs) := read Unquoted s' in (String c f, fs)
      | Quoted =>
          if Ascii.eqb c DQ then read QuoteSeen s'
          else let '(f, fs) := read Quoted s' in (String c f, fs)
      | QuoteSeen =>
          if Ascii.eqb c DQ then
            let '(f, fs) := read Quoted s' in (String DQ f, fs)
          else if Ascii.eqb c "," then
            let '(f, fs) := read Start s' in ("", f :: fs)
          else let '(f, fs) := read Unquoted s' in (String c f, fs)
      end
  end.

Definition read_record (s : string) : list string :=
  let '(f, fs) := read Start s in f :: fs.

(** The fields behind the end of a field: none at the end of the record,
    those of the rest behind a comma. *)
Definition fields_after (rest : string) : list string :=
  match rest with
  | "" => []
  | String _ r => read_record r
  end.

(** The end of a field: the end of the record or a comma. *)
Definition field_end (rest : string) : Prop :=
  rest = "" ∨ ∃ r, rest = String "," r.

End Csv.

(** What [DictWriter.writerow] gives: the text written, or ValueError
    with the keys of the row that are no field names. *)
Inductive outcome (A : Type) : Type :=
  | Written (a : A)
  | ValueError (wrong_fields : gset string).
Arguments Written {A} a.
Arguments ValueError {A} wrong_fields.

Global Instance outcome_ret : MRet outcome := λ _ a, Written a.
Global Instance outcome_bind : MBind outcome := λ _ _ f r,
  match r with
  | Written a => f a
  | ValueError w => ValueError w
  end.
Global Instance outcome_fmap : FMap outcome := λ _ _ f r,
  match r with
  | Written a => Written (f a)
  | ValueError w => ValueError w
  end.

Definition csv_headers : list string :=
  [ "QA_Knowledge-and-skills";
    "QA_Key-Vocabulary";
    "QA_Common-misconceptions";
    "VA_Vocabulary-Terms";
    "VA_Definitions";
    "VA_Special-Attention";
    "IR_Teaching-Approaches";
    "IR_Scaffolding";
    "IR_Sequencing" ].

(** [DictWriter._dict_to_list]: with [extrasaction='raise'] a key of the
    row outside the field names raises; a field name the row lacks gives
    [restval], the empty string. *)
Definition dict_to_list (fieldnames : list string)
    (rowdict : gmap string string) : outcome (list string) :=
  let wrong_fields := dom rowdict ∖ list_to_set fieldnames in
  if decide (wrong_fields = ∅)
  then Written ((λ key, default "" (rowdict !! key)) <$> fieldnames)
  else ValueError wrong_fields.

(** [DictWriter.writerow(rowdict)] *)
Definition dictwriter_writerow (fieldnames : list string)
    (rowdict : gmap string string) : outcome string :=
  Csv.writerow <$> dict_to_list fieldnames rowdict.

(** [DictWriter.writeheader()]: the row [dict(zip(fieldnames, fieldnames))]. *)
Definition dictwriter_writeheader (fieldnames : list string) : outcome string :=
  dictwriter_writerow fieldnames (list_to_map (zip fieldnames fieldnames)).

(** [csv_buffer.getvalue()] after [writeheader] and [writerow(parsed_result)]. *)
Definition csv_text (parsed_result : gmap string string) : outcome string :=
  header ← dictwriter_writeheader csv_headers;
  row ← dictwriter_writerow csv_headers parsed_result;
  Written (header +:+ row).

(** [s.encode('utf-8')] for code points below 256: one byte below 128,
    two bytes from there on. *)
Definition utf8_char (c : ascii) : list Byte.byte :=
  let n := N_of_ascii c in
  if (n <? 128)%N then [byte_of_ascii c]
  else [byte_of_ascii (ascii_of_N (192 + n / 64));
        byte_of_ascii (ascii_of_N (128 + n mod 64))].

Fixpoint utf8_encode (s : string) : list Byte.byte :=
  match s with
  | "" => []
  | String c s' => utf8_char c ++ utf8_encode s'
  end.

(** Reading the bytes back. *)
Fixpoint utf8_decode (bs : list Byte.byte) : string :=
  match bs with
  | [] => ""
  | b :: bs' =>
      let n := N_of_ascii (ascii_of_byte b) in
      if (n <? 128)%N then String (ascii_of_byte b) (utf8_decode bs')
      else
        match bs' with
        | b2 :: bs'' =>
            String (ascii_of_N ((n - 192) * 64
                                + (N_of_ascii (ascii_of_byte b2) - 128)))
                   (utf8_decode bs'')
        | [] => ""
        end
  end.

(** [csv_data]: the bytes offered for download. *)
Definition csv_data (parsed_result : gmap string string) : outcome (list Byte.byte) :=
  utf8_encode <$> csv_text parsed_result.

(** From the text of the model to the download: [parse_analysis_output]
    in generate_analysis, then the CSV bytes in main. *)
Definition csv_of_output (output_text : string)
    : result (outcome (list Byte.byte)) :=
  parsed_result ← parse_analysis_output output_text;
  Ok (csv_data parsed_result).

(** The header row as it is written. *)
Definition header_row : string :=
  Csv.join_fields csv_headers +:+ Csv.lineterminator.

(** A line boundary inside a text can only be a line feed. *)
Fixpoint only_lf (s : string) : bool :=
  match s with
  | "" => true
  | String c s' =>
      (negb (Char.islinebreak c) || Ascii.eqb c Char.LF) && only_lf s'
  end.

(** A line the loop skips. *)
Definition blank (raw : string) : bool := negb (Str.truthy (Str.strip raw)).

(** The lines the loop does not skip, trimmed. *)
Definition content_lines (lines : list string) : list string :=
  Str.strip <$> List.filter (λ raw, negb (blank raw)) lines.

(** Every value of the second record starts with the value the first
    record has under the same key. *)
Definition extends (d d' : gmap string string) : Prop :=
  ∀ k v, d !! k = Some v → ∃ t, d' !! k = Some (v +:+ t).

(** No value starts with white space. *)
Definition unspaced (d : gmap string string) : Prop :=
  ∀ k v, d !! k = Some v → starts_space v = false.

(** Every value has line feeds as its only line boundaries. *)
Definition lf_only (d : gmap string string) : Prop :=
  ∀ k v, d !! k = Some v → only_lf v = true.

(** The model found, if any, is one of the available names. *)
Definition from_available (available : list string) (c : choice) : Prop :=
  ∀ m, found_model c = Some m → m ∈ available.

(** No error notice so far. *)
Definition no_error (c : choice) : Prop :=
  ∀ msg, (Error, msg) ∉ notices c.

(** ** Lemmas on the string methods *)

Section str_lemmas.
Implicit Types (s t : string) (c : ascii).

Lemma rstrip_cons_nonspace c s :
  Char.isspace c = false → Str.rstrip (String c s) = String c (Str.rstrip s).
Proof. intros Hc. simpl. rewrite Hc. by destruct (Str.rstrip s). Qed.

Lemma lstrip_starts_space s : starts_space (Str.lstrip s) = false.
Proof.
  induction s as [|c s IH]; simpl; [done|].
  destruct (Char.isspace c) eqn:Hc; [done|]. simpl. done.
Qed.

Lemma lstrip_id s : starts_space s = false → Str.lstrip s = s.
Proof. destruct s as [|c s]; simpl; [done|]. by intros ->. Qed.

Lemma rstrip_starts_space s :
  starts_space s = false → starts_space (Str.rstrip s) = false.
Proof.
  destruct s as [|c s]; simpl; [done|]. intros Hc.
  rewrite Hc. by destruct (Str.rstrip s); simpl.
Qed.

Lemma rstrip_ends_space s : ends_space (Str.rstrip s) = false.
Proof.
  induction s as [|c s IH]; simpl; [done|].
  destruct (Str.rstrip s) as [|c' t] eqn:Hr.
  - destruct (Char.isspace c) eqn:Hc; simpl; done.
  - simpl in *. done.
Qed.

Lemma rstrip_id s : ends_space s = false → Str.rstrip s = s.
Proof.
  induction s as [|c s IH]; simpl; [done|].
  destruct s as [|c' t].
  - simpl. by intros ->.
  - intros H. rewrite (IH H). done.
Qed.

Lemma strip_starts_space s : starts_space (Str.strip s) = false.
Proof. apply rstrip_starts_space, lstrip_starts_space. Qed.

Lemma strip_ends_space s : ends_space (Str.strip s) = false.
Proof. apply rstrip_ends_space. Qed.

Lemma strip_id s :
  starts_space s = false → ends_space s = false → Str.strip s = s.
Proof. intros H1 H2. unfold Str.strip. by rewrite lstrip_id, rstrip_id. Qed.

Lemma strip_strip s : Str.strip (Str.strip s) = Str.strip s.
Proof. apply strip_id; [apply strip_starts_space | apply strip_ends_space]. Qed.

Lemma truthy_false s : Str.truthy s = false ↔ s = "".
Proof. by destruct s. Qed.

Lemma truthy_true s : Str.truthy s = true ↔ s ≠ "".
Proof. by destruct s. Qed.

End str_lemmas.

(** ** Lemmas on letter case *)

Section case_lemmas.
Implicit Types (s t : string) (c : ascii).

Lemma isspace_lower c : Char.isspace (Char.lower c) = Char.isspace c.
Proof. by destruct c as [[] [] [] [] [] [] [] []]. Qed.

Lemma dot_lower c : Char.dot (Char.lower c) = Char.dot c.
Proof. by destruct c as [[] [] [] [] [] [] [] []]. Qed.

Lemma islinebreak_lower c : Char.islinebreak (Char.lower c) = Char.islinebreak c.
Proof. by destruct c as [[] [] [] [] [] [] [] []]. Qed.

Lemma colon_lower c : Ascii.eqb (Char.lower c) ":" = Ascii.eqb c ":".
Proof. by destruct c as [[] [] [] [] [] [] [] []]. Qed.

Lemma lower_length s : String.length (Str.lower s) = String.length s.
Proof. induction s; simpl; congruence. Qed.

Lemma lower_lstrip s : Str.lower (Str.lstrip s) = Str.lstrip (Str.lower s).
Proof.
  induction s as [|c s IH]; simpl; [done|].
  rewrite isspace_lower. by destruct (Char.isspace c).
Qed.

Lemma lower_rstrip s : Str.lower (Str.rstrip s) = Str.rstrip (Str.lower s).
Proof.
  induction s as [|c s IH]; simpl; [done|].
  rewrite <- IH, isspace_lower.
  destruct (Str.rstrip s); simpl; [by destruct (Char.isspace c)|done].
Qed.

Lemma lower_strip s : Str.lower (Str.strip s) = Str.strip (Str.lower s).
Proof. unfold Str.strip. by rewrite lower_rstrip, lower_lstrip. Qed.

Lemma truthy_lower s : Str.truthy (Str.lower s) = Str.truthy s.
Proof. by destruct s. Qed.

Lemma all_space_lower s : Str.all_space (Str.lower s) = Str.all_space s.
Proof. induction s as [|c s IH]; simpl; [done|]. by rewrite isspace_lower, IH. Qed.

Lemma colon_end_lower s :
  Pattern.colon_end (Str.lower s) = Pattern.colon_end s.
Proof. destruct s as [|c s]; simpl; [done|]. by rewrite colon_lower, all_space_lower. Qed.

Lemma header_group_lower s :
  Pattern.header_group (Str.lower s) = Str.lower <$> Pattern.header_group s.
Proof.
  induction s as [|c s IH]; simpl; [done|].
  rewrite dot_lower, colon_end_lower, IH.
  destruct (Char.dot c); [|done].
  destruct (Pattern.colon_end s); [done|].
  by destruct (Pattern.header_group s).
Qed.

Lemma header_pattern_match_lower s :
  Pattern.header_pattern_match (Str.lower s)
  = Str.lower <$> Pattern.header_pattern_match s.
Proof.
  induction s as [|c s IH]; [done|].
  change (Str.lower (String c s)) with (String (Char.lower c) (Str.lower s)).
  cbn [Pattern.header_pattern_match].
  rewrite isspace_lower, IH.
  change (String (Char.lower c) (Str.lower s)) with (Str.lower (String c s)).
  rewrite header_group_lower.
  destruct (Char.isspace c); [|done].
  by destruct (Pattern.header_pattern_match s).
Qed.

(** The table lookup sees the header text through [lower] only. *)
Lemma find_header_lower h h' items :
  Str.lower h = Str.lower h' → find_header h items = find_header h' items.
Proof.
  intros Hh. induction items as [|[e k] items IH]; simpl; [done|].
  by rewrite Hh, IH.
Qed.

Lemma header_text_of_lower raw :
  header_text_of (Str.lower raw) = Str.lower <$> header_text_of raw.
Proof.
  unfold header_text_of.
  rewrite <- lower_strip, truthy_lower, header_pattern_match_lower.
  destruct (Str.truthy (Str.strip raw)); [|done].
  destruct (Pattern.header_pattern_match (Str.strip raw)); simpl; [|done].
  by rewrite lower_strip.
Qed.

End case_lemmas.

(** ** Lemmas on lines and on the header pattern *)

Section line_lemmas.
Implicit Types (s t : string) (c : ascii).

Lemma splitlines_no_linebreak_bounded n s :
  String.length s ≤ n → Forall (λ l, no_linebreak l = true) (Str.splitlines s).
Proof.
  revert s. induction n as [|n IH]; intros [|c s] Hn; simpl in *;
    try (by constructor); try lia.
  destruct (Char.islinebreak c) eqn:Hc.
  - constructor; [done|].
    destruct s as [|c' s']; [by constructor|].
    destruct (Ascii.eqb c Char.CR && Ascii.eqb c' Char.LF).
    + apply IH. simpl in Hn. lia.
    + apply IH. lia.
  - assert (Hs : Forall (λ l, no_linebreak l = true) (Str.splitlines s))
      by (apply IH; lia).
    destruct (Str.splitlines s) as [|l ls].
    + constructor; [|done]. simpl. by rewrite Hc.
    + inversion Hs; subst. constructor; [|done]. simpl. by rewrite Hc.
Qed.

Lemma splitlines_no_linebreak s raw :
  raw ∈ Str.splitlines s → no_linebreak raw = true.
Proof.
  intros Hin.
  pose proof (splitlines_no_linebreak_bounded (String.length s) s (le_n _)) as H.
  by apply (proj1 (Forall_forall _ _) H).
Qed.

Lemma lstrip_no_linebreak s :
  no_linebreak s = true → no_linebreak (Str.lstrip s) = true.
Proof.
  induction s as [|c s IH]; simpl; [done|].
  intros [Hc Hs]%andb_prop. destruct (Char.isspace c); [by apply IH|].
  simpl. by rewrite Hc, Hs.
Qed.

Lemma rstrip_no_linebreak s :
  no_linebreak s = true → no_linebreak (Str.rstrip s) = true.
Proof.
  induction s as [|c s IH]; simpl; [done|].
  intros [Hc Hs]%andb_prop. specialize (IH Hs).
  destruct (Str.rstrip s).
  - destruct (Char.isspace c); [done|]. simpl. by rewrite Hc.
  - simpl in *. by rewrite Hc, IH.
Qed.

Lemma strip_no_linebreak s :
  no_linebreak s = true → no_linebreak (Str.strip s) = true.
Proof. intros H. by apply rstrip_no_linebreak, lstrip_no_linebreak. Qed.

Lemma no_linebreak_dot c : Char.islinebreak c = false → Char.dot c = true.
Proof. by destruct c as [[] [] [] [] [] [] [] []]. Qed.

Lemma append_cons c s t : String c s +:+ t = String c (s +:+ t).
Proof. done. Qed.

Lemma append_nil t : "" +:+ t = t.
Proof. done. Qed.

Lemma all_space_colon s : Str.all_space (s +:+ ":") = false.
Proof.
  induction s as [|c s IH]; [done|].
  rewrite append_cons. simpl. rewrite IH. apply andb_false_r.
Qed.

Lemma colon_end_label_colon c s :
  Pattern.colon_end (String c s +:+ ":") = false.
Proof.
  rewrite append_cons. simpl. rewrite all_space_colon. apply andb_false_r.
Qed.

(** On a label without line boundary the lazy group stops at the final
    colon and nowhere before. *)
Lemma header_group_label label :
  label ≠ "" → no_linebreak label = true →
  Pattern.header_group (label +:+ ":") = Some label.
Proof.
  induction label as [|c l IH]; [done|]. intros _ Hnb.
  simpl in Hnb. apply andb_prop in Hnb as [Hc Hl].
  apply negb_true_iff in Hc.
  rewrite append_cons. cbn [Pattern.header_group].
  rewrite (no_linebreak_dot _ Hc).
  destruct l as [|c' l'].
  - done.
  - rewrite colon_end_label_colon, IH by done. done.
Qed.

Lemma header_pattern_match_nospace s :
  starts_space s = false →
  Pattern.header_pattern_match s = Pattern.header_group s.
Proof. destruct s as [|c s]; simpl; [done|]. by intros ->. Qed.

Lemma no_linebreak_app s t :
  no_linebreak (s +:+ t) = true → no_linebreak s = true.
Proof.
  induction s as [|c s IH]; [done|]. rewrite append_cons. simpl.
  intros [Hc Hs]%andb_prop. by rewrite Hc, IH.
Qed.

(** A trimmed line made of a non-empty label and a final colon matches
    the pattern, and the group is the label. *)
Lemma header_pattern_match_label raw label :
  no_linebreak raw = true →
  Str.strip raw = label +:+ ":" → label ≠ "" →
  Pattern.header_pattern_match (Str.strip raw) = Some label.
Proof.
  intros Hnb Hline Hlabel.
  rewrite header_pattern_match_nospace by apply strip_starts_space.
  rewrite Hline. apply header_group_label; [done|].
  apply (no_linebreak_app _ ":"). rewrite <- Hline.
  by apply strip_no_linebreak.
Qed.

End line_lemmas.

(** The pattern on a few lines. *)
Example pattern_colon_only : Pattern.header_pattern_match ":" = None.
Proof. reflexivity. Qed.

Example pattern_two_colons : Pattern.header_pattern_match "::" = Some ":".
Proof. reflexivity. Qed.

Example pattern_inner_colon :
  Pattern.header_pattern_match "a: :" = Some "a: ".
Proof. reflexivity. Qed.

Example pattern_gives_back_space :
  Pattern.header_pattern_match " :" = Some " ".
Proof. reflexivity. Qed.

Example pattern_bulleted_label :
  Pattern.header_pattern_match "- Definitions:" = Some "- Definitions".
Proof. reflexivity. Qed.

Example splitlines_crlf :
  Str.splitlines ("a" +:+ String Char.CR Str.nl +:+ "b" +:+ Str.nl +:+ Str.nl +:+ "c" +:+ Str.nl)
  = ["a"; "b"; ""; "c"].
Proof. reflexivity. Qed.

(** ** The loop invariant *)

Section loop_lemmas.
Implicit Types (st : loop_state) (raw : string) (d : gmap string string).

Lemma initial_result_dom : dom initial_result = field_keys.
Proof.
  unfold initial_result, field_keys. cbn [fmap list_fmap foldl snd header_mapping].
  rewrite !dom_insert_L, dom_empty_L. set_solver.
Qed.

Lemma find_header_values h items key :
  find_header h items = Some key → key ∈ items.*2.
Proof.
  induction items as [|[e k] items IH]; simpl; [done|].
  destruct (String.eqb _ _).
  - intros [= ->]. apply list_elem_of_here.
  - intros H. apply list_elem_of_further. by apply IH.
Qed.

Lemma header_mapping_values key :
  key ∈ header_mapping.*2 → key ∈ field_keys.
Proof.
  assert (Hall : Forall (λ k, k ∈ field_keys) header_mapping.*2)
    by (apply (bool_decide_unpack _); by vm_compute).
  apply (proj1 (Forall_forall _ _) Hall).
Qed.

Lemma find_header_field h key :
  find_header h header_mapping = Some key → key ∈ field_keys.
Proof. intros H. by apply header_mapping_values, (find_header_values h). Qed.

Lemma initial_inv : loop_inv (LoopState initial_result None).
Proof. split; [apply initial_result_dom|done]. Qed.

Lemma getitem_dom d key :
  key ∈ dom d → ∃ v, getitem d key = Ok v ∧ d !! key = Some v.
Proof.
  intros [v Hv]%elem_of_dom. exists v. unfold getitem. by rewrite Hv.
Qed.

Lemma loop_body_inv st raw :
  loop_inv st → ∃ st', loop_body st raw = Ok st' ∧ loop_inv st'.
Proof.
  intros Hst. pose proof Hst as [Hdom Hkey]. unfold loop_body.
  destruct (negb (Str.truthy (Str.strip raw))); [by exists st|].
  destruct (Pattern.header_pattern_match (Str.strip raw)) as [header|].
  { eexists; split; [done|]. split; [done|]. simpl.
    intros key. apply find_header_field. }
  unfold key_set. destruct (current_key st) as [key|]; [|by exists st].
  destruct (Str.truthy key); [|by exists st].
  assert (Hfield : key ∈ field_keys) by auto.
  assert (Hin : key ∈ dom (parsed_result st)) by (by rewrite Hdom).
  destruct (getitem_dom _ _ Hin) as (v & -> & Hv). simpl.
  assert (Hins : ∀ w, dom (<[key := w]> (parsed_result st)) = field_keys).
  { intros w. rewrite dom_insert_L, Hdom.
    apply leibniz_equiv. apply subseteq_union_1. by apply singleton_subseteq_l. }
  destruct (Str.truthy v); eexists; (split; [done|]); split; simpl; auto;
    intros k [= <-]; done.
Qed.

Lemma run_lines_inv lines st :
  loop_inv st → ∃ st', run_lines st lines = Ok st' ∧ loop_inv st'.
Proof.
  revert st. induction lines as [|raw lines IH]; intros st Hst; simpl.
  - by exists st.
  - destruct (loop_body_inv st raw Hst) as (st1 & -> & Hst1). simpl.
    by apply IH.
Qed.

Lemma parse_lines_inv lines :
  ∃ st, run_lines (LoopState initial_result None) lines = Ok st ∧ loop_inv st
        ∧ parse_lines lines = Ok (Str.strip <$> parsed_result st).
Proof.
  destruct (run_lines_inv lines _ initial_inv) as (st & Hrun & Hst).
  exists st. split; [done|]. split; [done|].
  unfold parse_lines. by rewrite Hrun.
Qed.

End loop_lemmas.

(** ** One round of the loop, case by case *)

Section round_lemmas.
Implicit Types (st : loop_state) (raw line s t b v : string).

Lemma loop_body_blank st raw :
  Str.strip raw = "" → loop_body st raw = Ok st.
Proof. intros H. unfold loop_body. by rewrite H. Qed.

Lemma loop_body_header st raw h :
  header_text_of raw = Some h →
  loop_body st raw
  = Ok (LoopState (parsed_result st) (find_header h header_mapping)).
Proof.
  unfold header_text_of, loop_body.
  destruct (Str.truthy (Str.strip raw)); [|done]. simpl.
  destruct (Pattern.header_pattern_match (Str.strip raw)); [|done].
  by intros [= <-].
Qed.

Lemma loop_body_content st raw key v :
  Str.strip raw ≠ "" →
  Pattern.header_pattern_match (Str.strip raw) = None →
  current_key st = Some key → key ≠ "" →
  parsed_result st !! key = Some v →
  loop_body st raw
  = Ok (LoopState (<[key := append_line v (unbullet (Str.strip raw))]>
                     (parsed_result st)) (Some key)).
Proof.
  intros Hne Hpat Hcur Hkey Hv. unfold loop_body.
  apply truthy_true in Hne, Hkey. rewrite Hne, Hpat, Hcur. simpl.
  rewrite Hkey. unfold getitem. rewrite Hv. simpl.
  unfold append_line, unbullet. by destruct (Str.truthy v).
Qed.

Lemma loop_body_no_key st raw :
  Pattern.header_pattern_match (Str.strip raw) = None →
  current_key st = None → loop_body st raw = Ok st.
Proof.
  intros Hpat Hcur. unfold loop_body. rewrite Hpat, Hcur. simpl.
  by destruct (negb _).
Qed.

Lemma all_space_ends_space s :
  Str.all_space s = true → s ≠ "" → ends_space s = true.
Proof.
  induction s as [|c s IH]; [done|]. simpl.
  intros [Hc Hs]%andb_prop _. destruct s; [done|]. by apply IH.
Qed.

(** A match of the group on a line without final white space ends at a
    final colon. *)
Lemma header_group_ends_colon s h :
  Pattern.header_group s = Some h → ends_space s = false →
  ends_colon s = true.
Proof.
  revert h. induction s as [|c s IH]; intros h; [done|].
  cbn [Pattern.header_group]. destruct (Char.dot c); [|done].
  destruct (Pattern.colon_end s) eqn:Hce.
  - intros _ Hes. destruct s as [|c' after]; [done|].
    simpl in Hce. apply andb_prop in Hce as [Hc' Hafter].
    destruct after as [|c'' after'].
    + simpl. done.
    + simpl in Hes. simpl.
      change (ends_space (String c'' after') = false) in Hes.
      by rewrite (all_space_ends_space _ Hafter) in Hes.
  - destruct (Pattern.header_group s) as [h'|] eqn:Hg; [|done].
    intros _ Hes. destruct s as [|c' s']; [done|].
    simpl in Hes |- *. by eapply IH.
Qed.

Lemma header_pattern_match_none s :
  starts_space s = false → ends_space s = false → ends_colon s = false →
  Pattern.header_pattern_match s = None.
Proof.
  intros Hs He Hc. rewrite header_pattern_match_nospace by done.
  destruct (Pattern.header_group s) as [h|] eqn:Hg; [|done].
  by rewrite (header_group_ends_colon _ _ Hg He) in Hc.
Qed.

End round_lemmas.

(** ** Plain lines, bulleted lines and texts made of lines *)

Section text_lemmas.
Implicit Types (st : loop_state) (s t b v x : string) (m c : ascii).

Lemma append_assoc s t u : (s +:+ t) +:+ u = s +:+ t +:+ u.
Proof. induction s as [|c s IH]; [done|]. rewrite !append_cons. by f_equal. Qed.

Lemma append_empty_r s : s +:+ "" = s.
Proof. induction s as [|c s IH]; [done|]. rewrite append_cons. by f_equal. Qed.

Lemma starts_space_app s t : s ≠ "" → starts_space (s +:+ t) = starts_space s.
Proof. by destruct s. Qed.

Lemma ends_space_cons c t : t ≠ "" → ends_space (String c t) = ends_space t.
Proof. by destruct t. Qed.

Lemma ends_colon_cons c t : t ≠ "" → ends_colon (String c t) = ends_colon t.
Proof. by destruct t. Qed.

Lemma append_nonempty_l s t : s ≠ "" → s +:+ t ≠ "".
Proof. by destruct s. Qed.

Lemma append_nonempty_r s t : t ≠ "" → s +:+ t ≠ "".
Proof. destruct s; [done|]. by rewrite append_cons. Qed.

Lemma ends_space_app s t : t ≠ "" → ends_space (s +:+ t) = ends_space t.
Proof.
  intros Ht. induction s as [|c s IH]; [done|].
  rewrite append_cons, ends_space_cons; [done|]. by apply append_nonempty_r.
Qed.

Lemma no_linebreak_append s t :
  no_linebreak s = true → no_linebreak t = true →
  no_linebreak (s +:+ t) = true.
Proof.
  intros Hs Ht. induction s as [|c s IH]; [done|].
  rewrite append_cons. simpl in *. apply andb_prop in Hs as [-> Hs]. by apply IH.
Qed.

Lemma plain_inv b :
  plain b = true →
  b ≠ "" ∧ no_linebreak b = true ∧ starts_space b = false
  ∧ ends_space b = false ∧ ends_colon b = false
  ∧ Str.startswith "-" b = false ∧ Str.startswith "*" b = false.
Proof.
  unfold plain. rewrite !andb_true_iff, !negb_true_iff, truthy_true. tauto.
Qed.

Lemma plain_strip b : plain b = true → Str.strip b = b.
Proof. intros (_ & _ & ? & ? & _)%plain_inv. by apply strip_id. Qed.

Lemma plain_no_match b :
  plain b = true → Pattern.header_pattern_match (Str.strip b) = None.
Proof.
  intros Hb. rewrite (plain_strip _ Hb).
  apply plain_inv in Hb as (_ & _ & ? & ? & ? & _).
  by apply header_pattern_match_none.
Qed.

Lemma plain_unbullet b : plain b = true → unbullet b = b.
Proof.
  intros (_ & _ & _ & _ & _ & H1 & H2)%plain_inv. unfold unbullet.
  by rewrite H1, H2.
Qed.

(** A plain line under an open field is appended as it stands. *)
Lemma loop_body_plain st b key v :
  plain b = true → current_key st = Some key → key ≠ "" →
  parsed_result st !! key = Some v →
  loop_body st b
  = Ok (LoopState (<[key := append_line v b]> (parsed_result st)) (Some key)).
Proof.
  intros Hb Hcur Hkey Hv.
  rewrite (loop_body_content st b key v); try done.
  - by rewrite (plain_strip _ Hb), (plain_unbullet _ Hb).
  - rewrite (plain_strip _ Hb). by apply plain_inv in Hb as [? _].
  - by apply plain_no_match.
Qed.

(** A plain line with no open field is dropped. *)
Lemma loop_body_plain_dropped st b :
  plain b = true → current_key st = None → loop_body st b = Ok st.
Proof. intros Hb Hcur. apply loop_body_no_key; [by apply plain_no_match|done]. Qed.

Lemma is_bullet_not_space m : is_bullet m = true → Char.isspace m = false.
Proof.
  unfold is_bullet. intros [H|H]%orb_prop; apply Ascii.eqb_eq in H; by subst.
Qed.

Lemma is_bullet_no_linebreak m : is_bullet m = true → Char.islinebreak m = false.
Proof.
  unfold is_bullet. intros [H|H]%orb_prop; apply Ascii.eqb_eq in H; by subst.
Qed.

Lemma bulleted_strip m x :
  is_bullet m = true → plain x = true →
  Str.strip (bulleted m x) = bulleted m x.
Proof.
  intros Hm (Hne & _ & _ & He & _)%plain_inv. apply strip_id.
  - simpl. by apply is_bullet_not_space.
  - unfold bulleted. by rewrite !ends_space_cons.
Qed.

Lemma bulleted_unbullet m x :
  is_bullet m = true → plain x = true → unbullet (bulleted m x) = x.
Proof.
  intros Hm Hx. unfold unbullet, bulleted.
  assert (Str.startswith "-" (String m (String " " x))
          || Str.startswith "*" (String m (String " " x)) = true) as ->.
  { unfold is_bullet in Hm.
    apply orb_prop in Hm as [H|H]; apply Ascii.eqb_eq in H; by subst. }
  simpl. change (Str.strip (String " " x)) with (Str.strip x).
  by apply plain_strip.
Qed.

Lemma bulleted_no_match m x :
  is_bullet m = true → plain x = true →
  Pattern.header_pattern_match (Str.strip (bulleted m x)) = None.
Proof.
  intros Hm Hx. rewrite bulleted_strip by done.
  apply plain_inv in Hx as (Hne & _ & _ & He & Hc & _).
  apply header_pattern_match_none.
  - simpl. by apply is_bullet_not_space.
  - unfold bulleted. by rewrite !ends_space_cons.
  - unfold bulleted. by rewrite !ends_colon_cons.
Qed.

Lemma bulleted_no_linebreak m x :
  is_bullet m = true → plain x = true → no_linebreak (bulleted m x) = true.
Proof.
  intros Hm (_ & Hnb & _)%plain_inv. simpl.
  by rewrite (is_bullet_no_linebreak _ Hm), Hnb.
Qed.

(** A bulleted line under an open field is appended without its marker
    and the space behind it. *)
Lemma loop_body_bulleted st m x key v :
  is_bullet m = true → plain x = true →
  current_key st = Some key → key ≠ "" →
  parsed_result st !! key = Some v →
  loop_body st (bulleted m x)
  = Ok (LoopState (<[key := append_line v x]> (parsed_result st)) (Some key)).
Proof.
  intros Hm Hx Hcur Hkey Hv.
  rewrite (loop_body_content st _ key v); try done.
  - by rewrite bulleted_strip, bulleted_unbullet.
  - by rewrite bulleted_strip.
  - by apply bulleted_no_match.
Qed.

Lemma splitlines_line l t :
  no_linebreak l = true →
  Str.splitlines (l +:+ Str.nl +:+ t) = l :: Str.splitlines t.
Proof.
  induction l as [|c l IH]; intros Hl.
  - rewrite append_nil. unfold Str.nl. rewrite append_cons, append_nil.
    simpl. by destruct t.
  - simpl in Hl. apply andb_prop in Hl as [Hc Hl].
    apply negb_true_iff in Hc.
    rewrite append_cons. cbn [Str.splitlines]. rewrite Hc, (IH Hl). done.
Qed.

Lemma splitlines_single l :
  no_linebreak l = true → l ≠ "" → Str.splitlines l = [l].
Proof.
  induction l as [|c l IH]; [done|]. intros Hl _.
  simpl in Hl. apply andb_prop in Hl as [Hc Hl].
  apply negb_true_iff in Hc. cbn [Str.splitlines]. rewrite Hc.
  destruct l as [|c' l']; [done|]. by rewrite IH.
Qed.

(** Lines without line boundary, the last one not empty, are the lines
    of the text they make. *)
Lemma splitlines_text_of lines :
  Forall (λ l, no_linebreak l = true) lines → last lines ≠ Some "" →
  Str.splitlines (text_of lines) = lines.
Proof.
  induction lines as [|l lines IH]; [done|]. intros Hall Hlast.
  inversion Hall as [|? ? Hl Hrest]; subst.
  destruct lines as [|l2 lines].
  - simpl. apply splitlines_single; [done|]. intros ->. by apply Hlast.
  - change (text_of (l :: l2 :: lines))
      with (l +:+ Str.nl +:+ text_of (l2 :: lines)).
    rewrite splitlines_line by done. f_equal. apply IH; [done|].
    by rewrite last_cons_cons in Hlast.
Qed.

End text_lemmas.

(** ** The nine labels, one by one *)

Section table_lemmas.

Lemma header_mapping_entry label key :
  (label, key) ∈ header_mapping →
  header_text_of (label +:+ ":") = Some label
  ∧ find_header label header_mapping = Some key
  ∧ no_linebreak (label +:+ ":") = true
  ∧ key ≠ ""
  ∧ initial_result !! key = Some "".
Proof.
  assert (Hall : Forall (λ e : string * string,
            header_text_of (e.1 +:+ ":") = Some e.1
            ∧ find_header e.1 header_mapping = Some e.2
            ∧ no_linebreak (e.1 +:+ ":") = true
            ∧ e.2 ≠ ""
            ∧ initial_result !! e.2 = Some "") header_mapping)
    by (apply (bool_decide_unpack _); vm_compute; exact I).
  intros Hin. apply (proj1 (Forall_forall _ _) Hall (label, key) Hin).
Qed.

Lemma foldl_insert_empty_lookup (values : list string) (d : gmap string string) k :
  foldl (λ d value, <[value := ""]> d) d values !! k
  = if decide (k ∈ values) then Some "" else d !! k.
Proof.
  revert d. induction values as [|v values IH]; intros d; cbn [foldl].
  - destruct (decide (k ∈ [])) as [H|_]; [by apply elem_of_nil in H|done].
  - rewrite IH.
    destruct (decide (k ∈ values)) as [Hin|Hnin],
             (decide (k ∈ v :: values)) as [Hin'|Hnin']; try done.
    + exfalso. apply Hnin'. by apply list_elem_of_further.
    + apply elem_of_cons in Hin' as [->|?]; [by rewrite lookup_insert_eq|done].
    + rewrite lookup_insert_ne; [done|]. intros ->.
      apply Hnin', list_elem_of_here.
Qed.

Lemma field_keys_values k : k ∈ field_keys ↔ k ∈ header_mapping.*2.
Proof.
  unfold field_keys. cbn [fmap list_fmap snd header_mapping].
  rewrite !elem_of_union, !elem_of_singleton, !elem_of_cons, elem_of_nil.
  tauto.
Qed.

Lemma initial_result_lookup k :
  initial_result !! k = if decide (k ∈ field_keys) then Some "" else None.
Proof.
  unfold initial_result. rewrite foldl_insert_empty_lookup, lookup_empty.
  destruct (decide (k ∈ header_mapping.*2)) as [H|H],
           (decide (k ∈ field_keys)) as [H'|H']; try done.
  - by apply field_keys_values in H.
  - by apply field_keys_values in H'.
Qed.

Lemma initial_result_empty : initial_result = gset_to_gmap "" field_keys.
Proof.
  apply map_eq. intros k.
  rewrite initial_result_lookup, lookup_gset_to_gmap.
  destruct (decide (k ∈ field_keys)); by simplify_option_eq.
Qed.

Lemma initial_result_strip : Str.strip <$> initial_result = initial_result.
Proof.
  apply map_eq. intros k. rewrite lookup_fmap, initial_result_lookup.
  by destruct (decide (k ∈ field_keys)).
Qed.

End table_lemmas.

(** ** The specification, claim by claim *)

(** C1.  For every input text the parser returns a record whose keys are
    exactly the nine field identifiers, each of them bound to a string. *)
Theorem parse_nine_keys (output_text : string) :
  ∃ r : gmap string string,
    parse_analysis_output output_text = Ok r
    ∧ dom r = field_keys
    ∧ size (dom r) = 9
    ∧ ∀ key, key ∈ field_keys → ∃ v : string, r !! key = Some v.
Proof.
  destruct (parse_lines_inv (Str.splitlines output_text))
    as (st & _ & [Hdom _] & Hparse).
  exists (Str.strip <$> parsed_result st).
  assert (Hd : dom (Str.strip <$> parsed_result st) = field_keys)
    by (by rewrite dom_fmap_L).
  split; [exact Hparse|]. split; [exact Hd|]. split.
  - rewrite Hd. vm_compute. reflexivity.
  - intros key Hkey. rewrite <- Hd in Hkey.
    apply elem_of_dom in Hkey as [v Hv]. by exists v.
Qed.

(** C2.  The parser is total: on every input text, the empty one
    included, it returns a record and raises nothing; the same holds for
    the loop on any list of lines. *)
Theorem parse_total (output_text : string) :
  (∃ r, parse_analysis_output output_text = Ok r)
  ∧ (∀ k, parse_analysis_output output_text ≠ KeyError k)
  ∧ (∀ lines, ∃ r, parse_lines lines = Ok r)
  ∧ parse_analysis_output "" = Ok (gset_to_gmap "" field_keys).
Proof.
  assert (Hl : ∀ lines, ∃ r, parse_lines lines = Ok r).
  { intros lines. destruct (parse_lines_inv lines) as (st & _ & _ & ->).
    by eexists. }
  split; [apply Hl|]. split; [|split; [exact Hl|]].
  - intros k. unfold parse_analysis_output.
    destruct (Hl (Str.splitlines output_text)) as [r ->]. discriminate.
  - change (parse_analysis_output "") with (Ok (Str.strip <$> initial_result)).
    by rewrite initial_result_strip, initial_result_empty.
Qed.

(** C3.  When no line of the input is a header line with one of the nine
    labels, the parser returns the record that binds each of the nine
    keys to the empty string. *)
Theorem parse_no_recognized_header (output_text : string) :
  Forall (λ raw, recognized_header_line raw = false)
         (Str.splitlines output_text) →
  parse_analysis_output output_text = Ok (gset_to_gmap "" field_keys).
Proof.
  intros Hall. unfold parse_analysis_output, parse_lines.
  assert (Hrun : ∀ d, run_lines (LoopState d None) (Str.splitlines output_text)
                      = Ok (LoopState d None)).
  { intros d. induction Hall as [|raw lines Hraw _ IH]; [done|].
    cbn [run_lines].
    assert (loop_body (LoopState d None) raw = Ok (LoopState d None)) as ->.
    { unfold recognized_header_line in Hraw. unfold loop_body.
      destruct (Str.truthy (Str.strip raw)); [|done].
      cbn [negb andb] in *.
      destruct (Pattern.header_pattern_match (Str.strip raw)) as [h|]; [|done].
      apply bool_decide_eq_false in Hraw.
      destruct (find_header (Str.strip h) header_mapping); [|done].
      exfalso. apply Hraw. by eexists. }
    exact IH. }
  rewrite Hrun. cbn [mbind result_bind parsed_result].
  by rewrite initial_result_strip, initial_result_empty.
Qed.

Lemma parse_no_recognized_header_witness :
  parse_analysis_output
    (text_of ["Summary:"; "- apple"; "Note: see below:"; "banana"])
  = Ok (gset_to_gmap "" field_keys).
Proof.
  apply parse_no_recognized_header.
  apply (bool_decide_unpack _). vm_compute. exact I.
Defined.

(** ** Running the loop on a text given line by line *)

Section run_lemmas.
Implicit Types (st : loop_state) (raw s t b v x : string).
Implicit Types (d : gmap string string) (k : option string).

Lemma run_lines_step st st' raw lines :
  loop_body st raw = Ok st' →
  run_lines st (raw :: lines) = run_lines st' lines.
Proof. intros H. cbn [run_lines]. by rewrite H. Qed.

Lemma run_header d k raw h lines :
  header_text_of raw = Some h →
  run_lines (LoopState d k) (raw :: lines)
  = run_lines (LoopState d (find_header h header_mapping)) lines.
Proof. intros H. apply run_lines_step. by rewrite (loop_body_header _ _ h). Qed.

Lemma run_plain d key b v lines :
  plain b = true → key ≠ "" → d !! key = Some v →
  run_lines (LoopState d (Some key)) (b :: lines)
  = run_lines (LoopState (<[key := append_line v b]> d) (Some key)) lines.
Proof.
  intros Hb Hkey Hv. apply run_lines_step.
  by rewrite (loop_body_plain _ b key v).
Qed.

Lemma run_bulleted d key m x v lines :
  is_bullet m = true → plain x = true → key ≠ "" → d !! key = Some v →
  run_lines (LoopState d (Some key)) (bulleted m x :: lines)
  = run_lines (LoopState (<[key := append_line v x]> d) (Some key)) lines.
Proof.
  intros Hm Hx Hkey Hv. apply run_lines_step.
  by rewrite (loop_body_bulleted _ m x key v).
Qed.

Lemma run_dropped d b lines :
  plain b = true →
  run_lines (LoopState d None) (b :: lines) = run_lines (LoopState d None) lines.
Proof. intros Hb. apply run_lines_step. by apply loop_body_plain_dropped. Qed.

Lemma field_parse_lines key lines st :
  run_lines (LoopState initial_result None) lines = Ok st →
  field key (parse_lines lines) = Str.strip <$> parsed_result st !! key.
Proof.
  intros H. unfold parse_lines. rewrite H.
  cbn [mbind result_bind field]. apply lookup_fmap.
Qed.

Lemma append_line_empty x : append_line "" x = x.
Proof. done. Qed.

Lemma append_line_nonempty v x :
  v ≠ "" → append_line v x = v +:+ Str.nl +:+ x.
Proof. intros Hv%truthy_true. unfold append_line. by rewrite Hv. Qed.

Lemma plain_join_strip b1 mid b2 :
  plain b1 = true → plain b2 = true →
  Str.strip (b1 +:+ mid +:+ b2) = b1 +:+ mid +:+ b2.
Proof.
  intros (Hne1 & _ & Hs1 & _)%plain_inv (Hne2 & _ & _ & He2 & _)%plain_inv.
  apply strip_id.
  - by rewrite starts_space_app.
  - rewrite !ends_space_app; [done|done|by apply append_nonempty_r].
Qed.

End run_lemmas.

(** C4.  A header line with one of the nine labels, a body line, a header
    line with a label outside the table, a body line under it, the first
    header line again and a last body line: the field of the label holds
    the first and the last body line joined by a line feed.  The line
    under the foreign header is dropped and the second occurrence of the
    label appends.  With [Definitions], [foo], [Something Else:], [bar]
    and [baz] this is the input of the claim. *)
Theorem repeated_header_appends (label key other h b1 junk b2 : string) :
  (label, key) ∈ header_mapping →
  no_linebreak other = true →
  header_text_of other = Some h →
  find_header h header_mapping = None →
  plain b1 = true → plain junk = true → plain b2 = true →
  field key (parse_analysis_output
               (text_of [label +:+ ":"; b1; other; junk; label +:+ ":"; b2]))
  = Some (b1 +:+ Str.nl +:+ b2).
Proof.
  intros (Hhead & Hfind & Hnb & Hkey & Hinit)%header_mapping_entry
         Hother Hh Hnone Hb1 Hjunk Hb2.
  pose proof (plain_inv _ Hb1) as (Hne1 & Hnb1 & _).
  pose proof (plain_inv _ Hjunk) as (_ & Hnbj & _).
  pose proof (plain_inv _ Hb2) as (Hne2 & Hnb2 & _).
  unfold parse_analysis_output.
  rewrite splitlines_text_of;
    [|by repeat constructor|by cbn; intros [= ->]].
  erewrite field_parse_lines; last first.
  { rewrite (run_header _ _ _ _ _ Hhead), Hfind.
    rewrite (run_plain _ _ _ _ _ Hb1 Hkey Hinit).
    rewrite (run_header _ _ _ _ _ Hh), Hnone.
    rewrite (run_dropped _ _ _ Hjunk).
    rewrite (run_header _ _ _ _ _ Hhead), Hfind.
    rewrite (run_plain _ _ _ _ _ Hb2 Hkey (lookup_insert_eq _ _ _)).
    reflexivity. }
  cbn [parsed_result]. rewrite insert_insert_eq, lookup_insert_eq.
  cbn [fmap option_fmap option_map].
  rewrite append_line_empty, append_line_nonempty by done.
  by rewrite plain_join_strip.
Qed.

Lemma repeated_header_appends_witness :
  field "VA_Definitions"
    (parse_analysis_output
       (text_of ["Definitions:"; "foo"; "Something Else:"; "bar";
                 "Definitions:"; "baz"]))
  = Some (text_of ["foo"; "baz"]).
Proof.
  apply (repeated_header_appends "Definitions" "VA_Definitions"
           "Something Else:" "Something Else" "foo" "bar" "baz").
  - apply (bool_decide_unpack _). vm_compute. exact I.
  - vm_compute. reflexivity.
  - vm_compute. reflexivity.
  - vm_compute. reflexivity.
  - vm_compute. reflexivity.
  - vm_compute. reflexivity.
  - vm_compute. reflexivity.
Defined.

(** C5, as the code has it.  A line of the input whose trimmed form is a
    non-empty label followed by a final colon is a header line: the
    record is left as it was and the current key becomes what the table
    gives for the trimmed label, which is no key at all when the label is
    none of the nine.  Body text that ends in a colon falls under this,
    and so does the bulleted line [- Definitions:], which closes the
    current field, the pattern being tried before the bullet is looked
    at. *)
Theorem header_candidate_line (output_text raw label : string) (st : loop_state) :
  raw ∈ Str.splitlines output_text →
  Str.strip raw = label +:+ ":" →
  label ≠ "" →
  loop_body st raw
  = Ok (LoopState (parsed_result st)
                  (find_header (Str.strip label) header_mapping))
  ∧ (find_header (Str.strip label) header_mapping = None →
     loop_body st raw = Ok (LoopState (parsed_result st) None))
  ∧ loop_body st "- Definitions:" = Ok (LoopState (parsed_result st) None).
Proof.
  intros Hin Hline Hlabel.
  assert (Hbody : loop_body st raw
                  = Ok (LoopState (parsed_result st)
                          (find_header (Str.strip label) header_mapping))).
  { apply loop_body_header. unfold header_text_of.
    assert (Str.truthy (Str.strip raw) = true) as ->.
    { rewrite Hline. apply truthy_true. by apply append_nonempty_r. }
    rewrite (header_pattern_match_label raw label); try done.
    by apply (splitlines_no_linebreak output_text). }
  split; [exact Hbody|]. split.
  - intros Hnone. by rewrite Hbody, Hnone.
  - by rewrite (loop_body_header st "- Definitions:" "- Definitions").
Qed.

Lemma header_candidate_line_witness :
  let st := LoopState initial_result (Some "VA_Definitions") in
  loop_body st "  Note: see below: "
  = Ok (LoopState (parsed_result st)
                  (find_header (Str.strip "Note: see below") header_mapping))
  ∧ (find_header (Str.strip "Note: see below") header_mapping = None →
     loop_body st "  Note: see below: " = Ok (LoopState (parsed_result st) None))
  ∧ loop_body st "- Definitions:" = Ok (LoopState (parsed_result st) None).
Proof.
  intros st.
  apply (header_candidate_line
           (text_of ["Definitions:"; "foo"; "  Note: see below: "; "bar"])
           "  Note: see below: " "Note: see below" st).
  - apply (bool_decide_unpack _). vm_compute. exact I.
  - vm_compute. reflexivity.
  - discriminate.
Defined.

(** C5, as the claim has it, fails on the line [:].  Its trimmed form
    ends in a colon, but the pattern asks for at least one character
    before the colon: the line is a body line and, under the field of
    [Definitions:], becomes the content of that field. *)
Lemma colon_only_line_is_content :
  ¬ (∀ (output_text raw : string) (st st' : loop_state),
       raw ∈ Str.splitlines output_text →
       ends_colon (Str.strip raw) = true →
       loop_body st raw = Ok st' →
       parsed_result st' = parsed_result st).
Proof.
  intros Hclaim.
  pose (st := LoopState initial_result (Some "VA_Definitions")).
  assert (Hbody : loop_body st ":"
                  = Ok (LoopState (<["VA_Definitions" := ":"]> initial_result)
                                  (Some "VA_Definitions"))).
  { by rewrite (loop_body_content st ":" "VA_Definitions" ""). }
  assert (Hin : ":" ∈ Str.splitlines (text_of ["Definitions:"; ":"]))
    by (apply (bool_decide_unpack _); vm_compute; exact I).
  specialize (Hclaim _ ":" st _ Hin eq_refl Hbody).
  apply (f_equal (λ d : gmap string string, d !! "VA_Definitions")) in Hclaim.
  cbn [parsed_result st] in Hclaim.
  rewrite lookup_insert_eq, initial_result_lookup in Hclaim.
  by destruct (decide _).
Qed.

(** The same on a whole text: [Definitions:] and then [:]. *)
Example colon_only_line_parse :
  field "VA_Definitions" (parse_analysis_output (text_of ["Definitions:"; ":"]))
  = Some ":".
Proof. vm_compute. reflexivity. Qed.

(** ** Lists of items under one header *)

Section item_lemmas.
Implicit Types (items : list (ascii * string)) (xs lines : list string).
Implicit Types (d : gmap string string) (v x key : string).

Lemma bullet_items_cons m x items :
  bullet_items ((m, x) :: items) = true ↔
  is_bullet m = true ∧ plain x = true ∧ bullet_items items = true.
Proof.
  unfold bullet_items. cbn [forallb fst snd].
  rewrite !andb_true_iff. tauto.
Qed.

Lemma run_bullet_lines items d key v lines :
  bullet_items items = true → key ≠ "" → d !! key = Some v →
  run_lines (LoopState d (Some key)) (bullet_lines items ++ lines)
  = run_lines (LoopState (<[key := foldl append_line v items.*2]> d) (Some key))
              lines.
Proof.
  revert d v. induction items as [|[m x] items IH]; intros d v Hit Hkey Hv.
  - cbn. by rewrite insert_id.
  - apply bullet_items_cons in Hit as (Hm & Hx & Hit).
    cbn [bullet_lines fmap list_fmap fst snd app foldl].
    rewrite (run_bulleted d key m x v) by done.
    change (list_fmap _ _ (λ it, bulleted it.1 it.2) items)
      with (bullet_lines items).
    rewrite (IH _ (append_line v x)); [|done|done|apply lookup_insert_eq].
    by rewrite insert_insert_eq.
Qed.

Lemma text_of_cons_cons x y xs :
  text_of (x :: y :: xs) = x +:+ Str.nl +:+ text_of (y :: xs).
Proof. done. Qed.

Lemma foldl_append_line v xs :
  v ≠ "" → foldl append_line v xs = text_of (v :: xs).
Proof.
  revert v. induction xs as [|x xs IH]; intros v Hv; [done|].
  cbn [foldl]. rewrite append_line_nonempty by done.
  rewrite IH by (by apply append_nonempty_l).
  destruct xs as [|y xs]; [done|].
  by rewrite !text_of_cons_cons, !append_assoc.
Qed.

Lemma foldl_append_line_empty xs :
  Forall (λ x, plain x = true) xs →
  foldl append_line "" xs = text_of xs.
Proof.
  intros [|x xs' Hx _]; [done|]. cbn [foldl].
  rewrite append_line_empty. apply foldl_append_line.
  by apply plain_inv in Hx as [? _].
Qed.

Lemma text_of_plain xs :
  Forall (λ x, plain x = true) xs → xs ≠ [] →
  text_of xs ≠ ""
  ∧ starts_space (text_of xs) = false
  ∧ ends_space (text_of xs) = false.
Proof.
  induction 1 as [|x xs Hx Hxs IH]; [done|]. intros _.
  apply plain_inv in Hx as (Hne & _ & Hs & He & _).
  destruct xs as [|y xs]; [done|].
  destruct IH as (IH1 & IH2 & IH3); [done|].
  rewrite text_of_cons_cons. split; [|split].
  - by apply append_nonempty_r, append_nonempty_r.
  - by rewrite starts_space_app.
  - rewrite !ends_space_app; [done|done|by apply append_nonempty_r].
Qed.

Lemma text_of_plain_strip xs :
  Forall (λ x, plain x = true) xs → Str.strip (text_of xs) = text_of xs.
Proof.
  intros Hxs. destruct xs as [|x xs]; [done|].
  destruct (text_of_plain _ Hxs) as (_ & Hs & He); [done|].
  by apply strip_id.
Qed.

Lemma bullet_items_plain items :
  bullet_items items = true → Forall (λ x, plain x = true) items.*2.
Proof.
  induction items as [|[m x] items IH]; [by constructor|].
  intros (_ & Hx & Hit)%bullet_items_cons. constructor; [done|by apply IH].
Qed.

Lemma bullet_lines_no_linebreak items :
  bullet_items items = true →
  Forall (λ l, no_linebreak l = true) (bullet_lines items).
Proof.
  induction items as [|[m x] items IH]; [by constructor|].
  intros (Hm & Hx & Hit)%bullet_items_cons. constructor; [|by apply IH].
  by apply bulleted_no_linebreak.
Qed.

Lemma last_nonempty lines :
  Forall (λ l, l ≠ "") lines → last lines ≠ Some "".
Proof.
  intros Hall Hlast. apply last_Some_elem_of in Hlast.
  by apply (proj1 (Forall_forall _ _) Hall) in Hlast.
Qed.

Lemma bullet_lines_nonempty items :
  Forall (λ l, l ≠ "") (bullet_lines items).
Proof. induction items as [|[m x] items IH]; by constructor. Qed.

End item_lemmas.

(** C6.  A header line with one of the nine labels followed by bulleted
    items: the field of the label holds the items without marker and
    space, joined by line feeds in the order of the input.  With
    [Key vocabulary terms], [- apple] and [- banana] this is the input of
    the claim. *)
Theorem bulleted_items_joined (label key : string) (items : list (ascii * string)) :
  (label, key) ∈ header_mapping →
  bullet_items items = true →
  field key (parse_analysis_output
               (text_of ((label +:+ ":") :: bullet_lines items)))
  = Some (text_of items.*2).
Proof.
  intros (Hhead & Hfind & Hnb & Hkey & Hinit)%header_mapping_entry Hit.
  unfold parse_analysis_output. rewrite splitlines_text_of; first last.
  - apply last_nonempty. constructor; [|apply bullet_lines_nonempty].
    intros H. by rewrite H in Hhead.
  - constructor; [done|by apply bullet_lines_no_linebreak].
  - erewrite field_parse_lines; last first.
    { rewrite (run_header _ _ _ _ _ Hhead), Hfind.
      rewrite <- (app_nil_r (bullet_lines items)).
      rewrite (run_bullet_lines items _ key "" [] Hit Hkey Hinit).
      reflexivity. }
    cbn [parsed_result]. rewrite lookup_insert_eq.
    cbn [fmap option_fmap option_map].
    rewrite foldl_append_line_empty by (by apply bullet_items_plain).
    by rewrite text_of_plain_strip by (by apply bullet_items_plain).
Qed.

Lemma bulleted_items_joined_witness :
  field "QA_Key-Vocabulary"
    (parse_analysis_output
       (text_of ["Key vocabulary terms:"; "- apple"; "- banana"]))
  = Some (text_of ["apple"; "banana"]).
Proof.
  apply (bulleted_items_joined "Key vocabulary terms" "QA_Key-Vocabulary"
           [("-"%char, "apple"); ("-"%char, "banana")]).
  - apply (bool_decide_unpack _). vm_compute. exact I.
  - vm_compute. reflexivity.
Defined.

(** C7.  Under the field of a recognized header the body line
    [* term: meaning] is no header line, the colon inside it
    notwithstanding, and is appended as [term: meaning]: the star and the
    space behind it are gone, nothing else.  Alone under its header it is
    the whole field. *)
Theorem star_bullet_line (label key v : string) (st : loop_state) :
  (label, key) ∈ header_mapping →
  current_key st = Some key →
  parsed_result st !! key = Some v →
  Pattern.header_pattern_match (Str.strip "* term: meaning") = None
  ∧ loop_body st "* term: meaning"
    = Ok (LoopState (<[key := append_line v "term: meaning"]> (parsed_result st))
                    (Some key))
  ∧ field key (parse_analysis_output (text_of [label +:+ ":"; "* term: meaning"]))
    = Some "term: meaning".
Proof.
  intros Hin Hcur Hv.
  pose proof (header_mapping_entry _ _ Hin) as (_ & _ & _ & Hkey & _).
  split; [by vm_compute|]. split.
  - by apply (loop_body_bulleted st "*" "term: meaning" key v).
  - pose proof (header_mapping_entry _ _ Hin) as (Hhead & Hfind & Hnb & _ & Hinit).
    unfold parse_analysis_output.
    rewrite splitlines_text_of; [|by repeat constructor|by cbn].
    erewrite field_parse_lines; last first.
    { rewrite (run_header _ _ _ _ _ Hhead), Hfind.
      rewrite (run_bulleted _ key "*" "term: meaning" "" []) by done.
      reflexivity. }
    cbn [parsed_result]. by rewrite lookup_insert_eq.
Qed.

Lemma star_bullet_line_witness :
  let st := LoopState (<["VA_Definitions" := "foo"]> initial_result)
                      (Some "VA_Definitions") in
  Pattern.header_pattern_match (Str.strip "* term: meaning") = None
  ∧ loop_body st "* term: meaning"
    = Ok (LoopState (<["VA_Definitions" := append_line "foo" "term: meaning"]>
                       (parsed_result st))
                    (Some "VA_Definitions"))
  ∧ field "VA_Definitions"
      (parse_analysis_output (text_of ["Definitions:"; "* term: meaning"]))
    = Some "term: meaning".
Proof.
  intros st.
  apply (star_bullet_line "Definitions" "VA_Definitions" "foo" st).
  - apply (bool_decide_unpack _). vm_compute. exact I.
  - reflexivity.
  - vm_compute. reflexivity.
Defined.

(** ** A line that is nothing but a bullet marker *)

Section marker_lemmas.
Implicit Types (d : gmap string string) (m : ascii) (v key s t : string).

Lemma run_marker d key m v lines :
  is_bullet m = true → key ≠ "" → d !! key = Some v →
  run_lines (LoopState d (Some key)) (String m "" :: lines)
  = run_lines (LoopState (<[key := append_line v ""]> d) (Some key)) lines.
Proof.
  intros Hm Hkey Hv. apply run_lines_step.
  assert (m = "-"%char ∨ m = "*"%char) as [-> | ->].
  { unfold is_bullet in Hm.
    apply orb_prop in Hm as [H|H]; apply Ascii.eqb_eq in H; auto. }
  - by rewrite (loop_body_content _ "-" key v).
  - by rewrite (loop_body_content _ "*" key v).
Qed.

Lemma strip_app s t :
  s ≠ "" → starts_space s = false → t ≠ "" → ends_space t = false →
  Str.strip (s +:+ t) = s +:+ t.
Proof.
  intros Hs Hss Ht Het. apply strip_id.
  - by rewrite starts_space_app.
  - by rewrite ends_space_app.
Qed.

End marker_lemmas.

(** C10.  Under an open field a line that is a bullet marker and nothing
    else is appended as an empty line: between two plain lines it leaves
    two line feeds in the field, although empty input lines are skipped.
    With [Definitions], [foo], [-] and [bar] this is the input of the
    claim. *)
Theorem bullet_only_line (label key b1 b2 : string) (m : ascii) :
  (label, key) ∈ header_mapping →
  is_bullet m = true →
  plain b1 = true → plain b2 = true →
  field key (parse_analysis_output
               (text_of [label +:+ ":"; b1; String m ""; b2]))
  = Some (b1 +:+ Str.nl +:+ Str.nl +:+ b2)
  ∧ field key (parse_analysis_output (text_of [label +:+ ":"; b1; ""; b2]))
    = Some (b1 +:+ Str.nl +:+ b2).
Proof.
  intros (Hhead & Hfind & Hnb & Hkey & Hinit)%header_mapping_entry Hm Hb1 Hb2.
  pose proof (plain_inv _ Hb1) as (Hne1 & Hnb1 & Hs1 & _).
  pose proof (plain_inv _ Hb2) as (Hne2 & Hnb2 & _ & He2 & _).
  assert (Hmnb : no_linebreak (String m "") = true).
  { cbn. by rewrite (is_bullet_no_linebreak _ Hm). }
  unfold parse_analysis_output. split.
  - rewrite splitlines_text_of;
      [|by repeat constructor|by cbn; intros [= ->]].
    erewrite field_parse_lines; last first.
    { rewrite (run_header _ _ _ _ _ Hhead), Hfind.
      rewrite (run_plain _ _ _ _ _ Hb1 Hkey Hinit).
      rewrite (run_marker _ _ _ _ _ Hm Hkey (lookup_insert_eq _ _ _)).
      rewrite (run_plain _ _ _ _ _ Hb2 Hkey (lookup_insert_eq _ _ _)).
      reflexivity. }
    cbn [parsed_result]. rewrite lookup_insert_eq.
    cbn [fmap option_fmap option_map].
    rewrite append_line_empty, (append_line_nonempty b1) by done.
    rewrite append_line_nonempty by (by apply append_nonempty_l).
    rewrite append_empty_r, append_assoc. f_equal.
    apply strip_app; try done.
    by rewrite !ends_space_app by (by try apply append_nonempty_r).
  - rewrite splitlines_text_of;
      [|by repeat constructor|by cbn; intros [= ->]].
    erewrite field_parse_lines; last first.
    { rewrite (run_header _ _ _ _ _ Hhead), Hfind.
      rewrite (run_plain _ _ _ _ _ Hb1 Hkey Hinit).
      rewrite (run_lines_step _ _ "" _ (loop_body_blank _ "" eq_refl)).
      rewrite (run_plain _ _ _ _ _ Hb2 Hkey (lookup_insert_eq _ _ _)).
      reflexivity. }
    cbn [parsed_result]. rewrite lookup_insert_eq.
    cbn [fmap option_fmap option_map].
    rewrite append_line_empty, append_line_nonempty by done.
    by rewrite plain_join_strip.
Qed.

Lemma bullet_only_line_witness :
  field "VA_Definitions"
    (parse_analysis_output (text_of ["Definitions:"; "foo"; "-"; "bar"]))
  = Some (text_of ["foo"; ""; "bar"])
  ∧ field "VA_Definitions"
      (parse_analysis_output (text_of ["Definitions:"; "foo"; ""; "bar"]))
    = Some (text_of ["foo"; "bar"]).
Proof.
  apply (bullet_only_line "Definitions" "VA_Definitions" "foo" "bar" "-").
  - apply (bool_decide_unpack _). vm_compute. exact I.
  - vm_compute. reflexivity.
  - vm_compute. reflexivity.
  - vm_compute. reflexivity.
Defined.

(** C9.  Whatever the input, a field of the returned record neither
    starts nor ends with white space, and trimming it again gives the
    same text. *)
Theorem parse_fields_trimmed (output_text key v : string) :
  field key (parse_analysis_output output_text) = Some v →
  starts_space v = false ∧ ends_space v = false ∧ Str.strip v = v.
Proof.
  unfold parse_analysis_output.
  destruct (parse_lines_inv (Str.splitlines output_text)) as (st & _ & _ & ->).
  cbn [field]. rewrite lookup_fmap.
  destruct (parsed_result st !! key) as [v0|]; [|done].
  intros [= <-]. split; [apply strip_starts_space|].
  split; [apply strip_ends_space|apply strip_strip].
Qed.

Lemma parse_fields_trimmed_witness :
  starts_space "foo" = false ∧ ends_space "foo" = false
  ∧ Str.strip "foo" = "foo".
Proof.
  apply (parse_fields_trimmed (text_of ["Definitions:"; "  foo "; "-"])
           "VA_Definitions" "foo").
  vm_compute. reflexivity.
Defined.

(** ** Letter case and whole labels *)

Section label_lemmas.
Implicit Types (st : loop_state) (raw h label key s t : string).

Lemma run_lines_app st before after :
  run_lines st (before ++ after)
  = (st' ← run_lines st before; run_lines st' after).
Proof.
  revert st. induction before as [|raw before IH]; intros st; [done|].
  cbn [app run_lines]. destruct (loop_body st raw) as [st1|k]; [|done].
  apply IH.
Qed.

Lemma loop_body_same_header st raw raw' h h' :
  header_text_of raw = Some h → header_text_of raw' = Some h' →
  Str.lower h' = Str.lower h →
  loop_body st raw' = loop_body st raw.
Proof.
  intros Hh Hh' Hlow.
  rewrite (loop_body_header st raw h), (loop_body_header st raw' h') by done.
  by rewrite (find_header_lower h' h).
Qed.

Lemma header_text_of_case_variant raw raw' h :
  header_text_of raw = Some h → Str.lower raw' = Str.lower raw →
  ∃ h', header_text_of raw' = Some h' ∧ Str.lower h' = Str.lower h.
Proof.
  intros Hh Hlow.
  pose proof (header_text_of_lower raw') as H'.
  rewrite Hlow, header_text_of_lower, Hh in H'.
  destruct (header_text_of raw') as [h'|]; [|done].
  exists h'. split; [done|]. by injection H'.
Qed.

Lemma find_header_entry h items key :
  find_header h items = Some key →
  ∃ label, (label, key) ∈ items ∧ Str.lower h = Str.lower label.
Proof.
  induction items as [|[e k] items IH]; [done|]. cbn [find_header].
  destruct (String.eqb _ _) eqn:Heq.
  - intros [= ->]. exists e. split; [apply list_elem_of_here|].
    by apply String.eqb_eq.
  - intros (label & Hin & Hl)%IH. exists label.
    split; [by apply list_elem_of_further|done].
Qed.

Lemma header_mapping_key_label label label' key :
  (label, key) ∈ header_mapping → (label', key) ∈ header_mapping →
  label' = label.
Proof.
  assert (Hall : Forall (λ e : string * string,
            Forall (λ e' : string * string, e'.2 = e.2 → e'.1 = e.1)
                   header_mapping) header_mapping)
    by (apply (bool_decide_unpack _); vm_compute; exact I).
  intros Hin Hin'.
  pose proof (proj1 (Forall_forall _ _) Hall _ Hin) as Hall'.
  by apply (proj1 (Forall_forall _ _) Hall' _ Hin').
Qed.

Lemma append_length s t :
  String.length (s +:+ t) = String.length s + String.length t.
Proof. induction s as [|c s IH]; [done|]. rewrite append_cons. cbn. by rewrite IH. Qed.

Lemma length_zero s : String.length s = 0 → s = "".
Proof. by destruct s. Qed.

(** A header text that has a label of the table strictly inside it,
    letter case apart, is not taken for that label. *)
Lemma find_header_whole_label h label key pre suf :
  (label, key) ∈ header_mapping →
  Str.lower h = pre +:+ Str.lower label +:+ suf →
  pre +:+ suf ≠ "" →
  find_header h header_mapping ≠ Some key.
Proof.
  intros Hin Hh Hne Hfind.
  apply find_header_entry in Hfind as (label' & Hin' & Hl).
  rewrite (header_mapping_key_label label label' key Hin Hin') in Hl.
  rewrite Hl in Hh. apply (f_equal String.length) in Hh.
  rewrite !append_length in Hh.
  assert (String.length pre = 0 ∧ String.length suf = 0) as [Hp Hs] by lia.
  apply length_zero in Hp, Hs. by subst.
Qed.

End label_lemmas.

(** C8.  Header matching goes by the lowered label, whole.  Replacing a
    header line by a line that differs from it in letter case only gives
    a header line with the same field, the same outcome of the round of
    the loop and the same outcome of the parser, wherever the line
    stands.  [TEACHING APPROACHES:] and [Teaching Approaches:] both open
    IR_Teaching-Approaches.  A header text that contains a label of the
    table with something before or behind it does not open the field of
    that label. *)
Theorem header_case_insensitive (raw raw' h : string) :
  header_text_of raw = Some h →
  Str.lower raw' = Str.lower raw →
  (∃ h', header_text_of raw' = Some h'
         ∧ find_header h' header_mapping = find_header h header_mapping)
  ∧ (∀ st, loop_body st raw' = loop_body st raw)
  ∧ (∀ before after,
       parse_lines (before ++ raw' :: after) = parse_lines (before ++ raw :: after))
  ∧ (∀ output_text output_text' before after,
       Str.splitlines output_text = before ++ raw :: after →
       Str.splitlines output_text' = before ++ raw' :: after →
       parse_analysis_output output_text' = parse_analysis_output output_text)
  ∧ (∀ st, loop_body st "TEACHING APPROACHES:"
           = Ok (LoopState (parsed_result st) (Some "IR_Teaching-Approaches"))
         ∧ loop_body st "Teaching Approaches:"
           = Ok (LoopState (parsed_result st) (Some "IR_Teaching-Approaches")))
  ∧ (∀ label key pre suf header_text,
       (label, key) ∈ header_mapping →
       Str.lower header_text = pre +:+ Str.lower label +:+ suf →
       pre +:+ suf ≠ "" →
       find_header header_text header_mapping ≠ Some key).
Proof.
  intros Hh Hlow.
  destruct (header_text_of_case_variant raw raw' h Hh Hlow) as (h' & Hh' & Hl).
  assert (Hbody : ∀ st, loop_body st raw' = loop_body st raw)
    by (intros st; by apply (loop_body_same_header st raw raw' h h')).
  assert (Hlines : ∀ before after,
            parse_lines (before ++ raw' :: after)
            = parse_lines (before ++ raw :: after)).
  { intros before after. unfold parse_lines.
    rewrite !run_lines_app.
    destruct (run_lines _ before) as [st|k]; [|done].
    cbn [mbind result_bind run_lines]. by rewrite Hbody. }
  split; [|split; [exact Hbody|split; [exact Hlines|split; [|split]]]].
  - exists h'. split; [done|]. by apply find_header_lower.
  - intros output_text output_text' before after Ht Ht'.
    unfold parse_analysis_output. by rewrite Ht, Ht'.
  - intros st. split.
    + by rewrite (loop_body_header st _ "TEACHING APPROACHES").
    + by rewrite (loop_body_header st _ "Teaching Approaches").
  - intros label key pre suf header_text. apply find_header_whole_label.
Qed.

Lemma header_case_insensitive_witness :
  (∃ h', header_text_of "  key VOCABULARY terms :" = Some h'
         ∧ find_header h' header_mapping
           = find_header "Key vocabulary terms" header_mapping)
  ∧ find_header "Key vocabulary terms" header_mapping = Some "QA_Key-Vocabulary"
  ∧ find_header "Key vocabulary terms" header_mapping ≠ Some "VA_Vocabulary-Terms".
Proof.
  destruct (header_case_insensitive
              "  Key vocabulary terms :" "  key VOCABULARY terms :"
              "Key vocabulary terms")
    as (Hsame & _ & _ & _ & _ & Hwhole).
  - vm_compute. reflexivity.
  - vm_compute. reflexivity.
  - split; [exact Hsame|]. split; [vm_compute; reflexivity|].
    apply (Hwhole "Vocabulary Terms" "VA_Vocabulary-Terms" "key " "").
    + apply (bool_decide_unpack _). vm_compute. exact I.
    + vm_compute. reflexivity.
    + discriminate.
Defined.

(** ** Substrings and the short name of a model *)

Section short_name_lemmas.
Implicit Types (s t needle hay prefix short name : string) (c sep : ascii).

Lemma startswith_app needle t : Str.startswith needle (needle +:+ t) = true.
Proof.
  induction needle as [|c needle IH]; [done|].
  rewrite append_cons. cbn [Str.startswith]. by rewrite Ascii.eqb_refl, IH.
Qed.

Lemma startswith_split needle hay :
  Str.startswith needle hay = true → ∃ t, hay = needle +:+ t.
Proof.
  revert hay. induction needle as [|c needle IH]; intros hay.
  - by exists hay.
  - destruct hay as [|c' hay]; [done|]. cbn [Str.startswith].
    intros [Hc Hrest]%andb_prop. apply Ascii.eqb_eq in Hc as <-.
    destruct (IH _ Hrest) as [t ->]. by exists t.
Qed.

(** [contains] is occurrence as a substring. *)
Lemma contains_spec needle hay :
  StrExt.contains needle hay = true ↔ ∃ a b, hay = a +:+ needle +:+ b.
Proof.
  split.
  - induction hay as [|c hay IH]; cbn [StrExt.contains].
    + rewrite orb_false_r. intros [t Ht]%startswith_split. by exists "", t.
    + intros [Hs|Hc]%orb_prop.
      * apply startswith_split in Hs as [t Ht]. by exists "", t.
      * destruct (IH Hc) as (a & b & ->). by exists (String c a), b.
  - intros (a & b & ->). induction a as [|c a IH].
    + rewrite append_nil. destruct (needle +:+ b) eqn:E;
        cbn [StrExt.contains]; rewrite <- E, startswith_app; done.
    + rewrite append_cons. cbn [StrExt.contains]. rewrite IH. apply orb_true_r.
Qed.

Lemma contains_trans s t u :
  StrExt.contains s t = true → StrExt.contains t u = true →
  StrExt.contains s u = true.
Proof.
  rewrite !contains_spec. intros (a & b & ->) (a' & b' & ->).
  exists (a' +:+ a), (b +:+ b'). by rewrite !append_assoc.
Qed.

Lemma contains_char_cons sep c s :
  StrExt.contains (String sep "") (String c s)
  = Ascii.eqb sep c || StrExt.contains (String sep "") s.
Proof.
  cbn [StrExt.contains Str.startswith].
  by destruct s; rewrite andb_true_r.
Qed.

Lemma contains_nonempty needle hay :
  needle ≠ "" → StrExt.contains needle hay = true → hay ≠ "".
Proof. intros Hn Hc ->. by destruct needle. Qed.

(** The last part of a split: what follows the last separator. *)
Lemma split_on_last sep s :
  ∃ prefix short,
    last (StrExt.split_on sep s) = Some short
    ∧ s = prefix +:+ short
    ∧ StrExt.contains (String sep "") short = false
    ∧ (prefix = "" ∨ ∃ p, prefix = p +:+ String sep "")
    ∧ (prefix = "" ↔ ∃ part, StrExt.split_on sep s = [part]).
Proof.
  induction s as [|c s (prefix & short & Hlast & Hs & Hno & Hpre & Hone)].
  { exists "", "". repeat split; eauto. }
  cbn [StrExt.split_on]. destruct (Ascii.eqb c sep) eqn:Hc.
  - apply Ascii.eqb_eq in Hc as ->.
    exists (String sep prefix), short.
    destruct (StrExt.split_on sep s) as [|part parts] eqn:Hsplit; [done|].
    split; [by rewrite last_cons_cons|]. split; [by rewrite Hs|].
    split; [done|]. split.
    + right. destruct Hpre as [->|[p ->]]; [by exists ""|by exists (String sep p)].
    + split; [done|]. by intros [? [=]].
  - destruct (StrExt.split_on sep s) as [|part parts] eqn:Hsplit; [done|].
    destruct parts as [|part' parts].
    + assert (prefix = "") as -> by (apply Hone; eauto).
      cbn in Hlast. injection Hlast as <-. rewrite append_nil in Hs. subst s.
      exists "", (String c part). split; [done|]. split; [done|].
      split; [|split; [by left|split; eauto]].
      rewrite contains_char_cons, Hno, orb_false_r.
      by rewrite Ascii.eqb_sym.
    + exists (String c prefix), short.
      split; [by rewrite last_cons_cons in Hlast |- *|].
      split; [by rewrite Hs|]. split; [done|].
      assert (prefix ≠ "") as Hne by (intros H%Hone; by destruct H as [? [=]]).
      split; [|split; [done|by intros [? [=]]]].
      right. destruct Hpre as [?|[p ->]]; [done|]. by exists (String c p).
Qed.

End short_name_lemmas.

(** X1.  The short name of a model name is always defined: it is what
    follows the last slash, has no slash in it, and is the name itself
    when the name has no slash. *)
Theorem short_name_last_part (model_name : string) :
  ∃ prefix short,
    short_name model_name = Some short
    ∧ model_name = prefix +:+ short
    ∧ StrExt.contains "/" short = false
    ∧ (StrExt.contains "/" model_name = true → ∃ p, prefix = p +:+ "/")
    ∧ (StrExt.contains "/" model_name = false → prefix = "").
Proof.
  unfold short_name. destruct (StrExt.contains "/" model_name) eqn:Hslash.
  - destruct (split_on_last "/" model_name)
      as (prefix & short & Hlast & Hs & Hno & Hpre & _).
    exists prefix, short. split; [done|]. split; [done|]. split; [done|].
    split; [|done]. intros _. destruct Hpre as [->|Hp]; [|done].
    rewrite append_nil in Hs. subst. by rewrite Hno in Hslash.
  - exists "", model_name. repeat split; done.
Qed.

(** ** The choice of the model *)

Section choice_lemmas.
Implicit Types (available : list string) (c : choice) (m name short p : string).

Lemma short_name_suffix name short :
  short_name name = Some short → ∃ prefix, name = prefix +:+ short.
Proof.
  unfold short_name. destruct (StrExt.contains "/" name).
  - destruct (split_on_last "/" name) as (prefix & short' & Hlast & Hs & _).
    unfold StrExt.item_last. rewrite Hlast. intros [= <-]. by exists prefix.
  - intros [= <-]. by exists "".
Qed.

Lemma short_name_total name : ∃ short, short_name name = Some short.
Proof.
  unfold short_name. destruct (StrExt.contains "/" name); [|by eexists].
  destruct (split_on_last "/" name) as (prefix & short & Hlast & _).
  exists short. exact Hlast.
Qed.

Lemma short_name_test name short avail :
  short_name name = Some short →
  StrExt.contains short avail || StrExt.contains name avail
  = StrExt.contains short avail.
Proof.
  intros [prefix Hname]%short_name_suffix.
  destruct (StrExt.contains short avail) eqn:Hs; [done|].
  destruct (StrExt.contains name avail) eqn:Hn; [|done].
  assert (StrExt.contains short avail = true) as Hc; [|congruence].
  apply (contains_trans short name avail); [|done].
  apply contains_spec. exists prefix, "". by rewrite append_empty_r.
Qed.

Lemma find_ext {A} (f g : A → bool) (l : list A) :
  (∀ x, f x = g x) → find f l = find g l.
Proof. intros H. induction l as [|x l IH]; [done|]. cbn. by rewrite H, IH. Qed.

Lemma find_elem_of {A} (f : A → bool) (l : list A) x :
  find f l = Some x → x ∈ l ∧ f x = true.
Proof.
  intros [Hin Hf]%find_some. split; [by apply list_elem_of_In|done].
Qed.

Lemma match_selection_short name short available c :
  short_name name = Some short →
  match_selection short name available c
  = match find (StrExt.contains short) available with
    | Some m => Choice (Some m) (notices c ++ [(Info, "Using model: " +:+ m)])
    | None => c
    end.
Proof.
  intros Hs. unfold match_selection.
  by rewrite (find_ext _ (StrExt.contains short))
    by (intros x; by apply short_name_test).
Qed.

Lemma match_selection_keeps short name available c :
  from_available available c → no_error c →
  from_available available (match_selection short name available c)
  ∧ no_error (match_selection short name available c).
Proof.
  intros Hc He. unfold match_selection.
  destruct (find _ available) as [a|] eqn:Hf; [|done].
  apply find_elem_of in Hf as [Hin _]. split.
  - by intros m [= <-].
  - intros msg [?|[=]%list_elem_of_singleton]%elem_of_app. by apply (He msg).
Qed.

Lemma match_preferred_keeps p available c :
  from_available available c → no_error c →
  from_available available (match_preferred p available c)
  ∧ no_error (match_preferred p available c).
Proof.
  intros Hc He. unfold match_preferred.
  destruct (find _ available) as [a|] eqn:Hf; [|done].
  apply find_elem_of in Hf as [Hin _]. split.
  - by intros m [= <-].
  - intros msg [?|[=]%list_elem_of_singleton]%elem_of_app. by apply (He msg).
Qed.

Lemma match_alternatives_keeps preferred available c :
  from_available available c → no_error c →
  from_available available (match_alternatives preferred available c)
  ∧ no_error (match_alternatives preferred available c).
Proof.
  revert c. induction preferred as [|p preferred IH]; intros c Hc He; [done|].
  cbn [match_alternatives].
  destruct (match_preferred_keeps p available c Hc He) as [Hc' He'].
  destruct (StrExt.truthy_opt _); [done|]. by apply IH.
Qed.

Lemma seek_alternatives_keeps available name c :
  from_available available c → no_error c →
  from_available available (seek_alternatives available name c)
  ∧ no_error (seek_alternatives available name c).
Proof.
  intros Hc He. unfold seek_alternatives.
  destruct (negb _); [|done]. apply match_alternatives_keeps; [done|].
  intros msg [?|[=]%list_elem_of_singleton]%elem_of_app. by apply (He msg).
Qed.

Lemma take_first_keeps available c :
  from_available available c → no_error c →
  from_available available (take_first available c)
  ∧ no_error (take_first available c).
Proof.
  intros Hc He. unfold take_first.
  destruct (negb _); [|done]. destruct available as [|first rest]; [done|].
  split.
  - intros m [= <-]. apply list_elem_of_here.
  - intros msg [?|[=]%list_elem_of_singleton]%elem_of_app. by apply (He msg).
Qed.

Lemma before_report available name short :
  let c := take_first available
             (seek_alternatives available name
                (match_selection short name available (Choice None []))) in
  from_available available c ∧ no_error c.
Proof.
  cbn zeta. apply take_first_keeps; apply seek_alternatives_keeps;
    apply match_selection_keeps; try done; intros msg H; by apply elem_of_nil in H.
Qed.

Lemma find_model_unfold available name short :
  short_name name = Some short →
  find_model available name
  = Some (report_none
            (take_first available
               (seek_alternatives available name
                  (match_selection short name available (Choice None []))))).
Proof. intros H. unfold find_model. by rewrite H. Qed.

End choice_lemmas.

(** X2.  In the first loop the test on the selected name as a whole
    never decides: an available name in which the selected name occurs
    has its short name in it as well, so the loop stops at the first
    available name in which the short name occurs. *)
Theorem selected_name_test_redundant (model_name short : string) :
  short_name model_name = Some short →
  (∀ avail_model,
     StrExt.contains model_name avail_model = true →
     StrExt.contains short avail_model = true)
  ∧ (∀ available c,
       match_selection short model_name available c
       = match find (StrExt.contains short) available with
         | Some m => Choice (Some m) (notices c ++ [(Info, "Using model: " +:+ m)])
         | None => c
         end).
Proof.
  intros Hs. split.
  - intros avail_model Hc.
    rewrite <- (short_name_test model_name short avail_model Hs).
    rewrite Hc. apply orb_true_r.
  - intros available c. by apply match_selection_short.
Qed.

Lemma selected_name_test_redundant_witness :
  StrExt.contains "gemini-1.5-pro" "x/models/gemini-1.5-pro-001" = true.
Proof.
  destruct (selected_name_test_redundant "models/gemini-1.5-pro" "gemini-1.5-pro")
    as [H _].
  - vm_compute. reflexivity.
  - apply H. vm_compute. reflexivity.
Defined.

(** X3.  Whatever is selected, the model that is found is one of the
    available names. *)
Theorem found_model_is_available (available : list string)
    (model_name m : string) (c : choice) :
  find_model available model_name = Some c →
  found_model c = Some m →
  m ∈ available.
Proof.
  destruct (short_name_total model_name) as [short Hs].
  rewrite (find_model_unfold _ _ _ Hs). intros [= <-].
  destruct (before_report available model_name short) as [Hav _].
  unfold report_none. destruct (negb _); apply Hav.
Qed.

Lemma found_model_is_available_witness :
  "models/gemini-1.5-flash-8b"
  ∈ ["models/embedding"; "models/gemini-1.5-pro"; "models/gemini-1.5-flash-8b"].
Proof.
  eapply (found_model_is_available _ "models/gpt").
  - vm_compute. reflexivity.
  - reflexivity.
Defined.

(** X4.  With no available model there is no model, whatever is
    selected: the user is warned that the selection was not found and
    then told that no suitable model exists. *)
Theorem find_model_none_available (model_name : string) :
  find_model [] model_name
  = Some (Choice None
            [(Warning, "Model '" +:+ model_name
                       +:+ "' not found. Looking for alternative text models...");
             (Error, "No suitable models found in your account.")]).
Proof.
  destruct (short_name_total model_name) as [short Hs].
  by rewrite (find_model_unfold _ _ _ Hs).
Qed.

(** X5.  The error notice is shown exactly when no usable model was
    found, and it is then the last notice. *)
Theorem error_notice_iff_no_model (available : list string)
    (model_name : string) (c : choice) :
  find_model available model_name = Some c →
  ((∃ msg, (Error, msg) ∈ notices c)
   ↔ StrExt.truthy_opt (found_model c) = false)
  ∧ (StrExt.truthy_opt (found_model c) = false →
     last (notices c) = Some (Error, "No suitable models found in your account.")).
Proof.
  destruct (short_name_total model_name) as [short Hs].
  rewrite (find_model_unfold _ _ _ Hs). intros [= <-].
  destruct (before_report available model_name short) as [_ Hne].
  unfold report_none.
  destruct (StrExt.truthy_opt (found_model _)) eqn:Ht; cbn [negb].
  - rewrite Ht. split; [|done]. split; [|done].
    intros [msg Hmsg]. by apply Hne in Hmsg.
  - cbn [found_model notices]. rewrite Ht. split.
    + split; [done|]. intros _. eexists. apply elem_of_app. right.
      apply list_elem_of_here.
    + intros _. apply last_snoc.
Qed.

Lemma error_notice_iff_no_model_witness :
  let c := Choice (Some "")
             [(Warning, "Model 'x' not found. Looking for alternative text models...");
              (Warning, "No preferred models found. Using first available model: ");
              (Error, "No suitable models found in your account.")] in
  ((∃ msg, (Error, msg) ∈ notices c)
   ↔ StrExt.truthy_opt (found_model c) = false)
  ∧ (StrExt.truthy_opt (found_model c) = false →
     last (notices c) = Some (Error, "No suitable models found in your account.")).
Proof.
  intros c. apply (error_notice_iff_no_model [""] "x" c).
  vm_compute. reflexivity.
Defined.

(** X6.  When at least one model is available and no available name is
    empty, a model is always found and no error notice is shown. *)
Theorem model_always_found (available : list string) (model_name : string) :
  available ≠ [] →
  Forall (λ name, name ≠ "") available →
  ∃ c m, find_model available model_name = Some c
         ∧ found_model c = Some m ∧ m ≠ "" ∧ m ∈ available
         ∧ ∀ msg, (Error, msg) ∉ notices c.
Proof.
  intros Hne Hall.
  destruct (short_name_total model_name) as [short Hs].
  rewrite (find_model_unfold _ _ _ Hs).
  destruct (before_report available model_name short) as [Hav Herr].
  set (c0 := seek_alternatives _ _ _) in *.
  assert (Ht : StrExt.truthy_opt (found_model (take_first available c0)) = true).
  { unfold take_first.
    destruct (StrExt.truthy_opt (found_model c0)) eqn:Hc0; [done|].
    destruct available as [|first rest]; [done|]. cbn.
    apply truthy_true. by inversion Hall. }
  unfold report_none. rewrite Ht. cbn [negb].
  destruct (found_model (take_first available c0)) as [m|] eqn:Hm; [|done].
  exists (take_first available c0), m.
  split; [done|]. split; [done|]. split; [by apply truthy_true|].
  split; [by apply Hav|done].
Qed.

Lemma model_always_found_witness :
  ∃ c m, find_model ["models/embedding"; "models/aqa"] "gemini-1.5-flash" = Some c
         ∧ found_model c = Some m ∧ m ≠ ""
         ∧ m ∈ ["models/embedding"; "models/aqa"]
         ∧ ∀ msg, (Error, msg) ∉ notices c.
Proof.
  apply model_always_found.
  - discriminate.
  - repeat constructor; discriminate.
Defined.

Section stage_lemmas.
Implicit Types (available preferred : list string) (c : choice) (m name short p : string).

Lemma match_preferred_none q available c :
  find (StrExt.contains q) available = None →
  match_preferred q available c = c.
Proof.
  intros H. unfold match_preferred.
  change (find (λ a, StrExt.contains q a) available)
    with (find (StrExt.contains q) available).
  by rewrite H.
Qed.

Lemma match_preferred_some q available c m :
  find (StrExt.contains q) available = Some m →
  match_preferred q available c
  = Choice (Some m) (notices c ++ [(Info, "Using alternative model: " +:+ m)]).
Proof.
  intros H. unfold match_preferred.
  change (find (λ a, StrExt.contains q a) available)
    with (find (StrExt.contains q) available).
  by rewrite H.
Qed.

Lemma match_alternatives_none preferred available c :
  Forall (λ q, find (StrExt.contains q) available = None) preferred →
  StrExt.truthy_opt (found_model c) = false →
  match_alternatives preferred available c = c.
Proof.
  intros Hall Hc. induction Hall as [|q preferred Hq _ IH]; [done|].
  cbn [match_alternatives]. by rewrite (match_preferred_none _ _ _ Hq), Hc.
Qed.

Lemma match_alternatives_first before p after available c m :
  Forall (λ q, find (StrExt.contains q) available = None) before →
  find (StrExt.contains p) available = Some m → m ≠ "" →
  StrExt.truthy_opt (found_model c) = false →
  match_alternatives (before ++ p :: after) available c
  = Choice (Some m) (notices c ++ [(Info, "Using alternative model: " +:+ m)]).
Proof.
  intros Hall Hp Hm Hc. induction Hall as [|q before Hq _ IH].
  - cbn [app match_alternatives]. rewrite (match_preferred_some _ _ _ _ Hp).
    cbn [found_model StrExt.truthy_opt].
    by apply truthy_true in Hm as ->.
  - change ((q :: before) ++ p :: after) with (q :: (before ++ p :: after)).
    cbn [match_alternatives]. by rewrite (match_preferred_none _ _ _ Hq), Hc.
Qed.


Lemma take_first_found available c :
  StrExt.truthy_opt (found_model c) = true → take_first available c = c.
Proof. intros H. unfold take_first. by rewrite H. Qed.

Lemma report_none_found c :
  StrExt.truthy_opt (found_model c) = true → report_none c = c.
Proof. intros H. unfold report_none. by rewrite H. Qed.

Lemma truthy_opt_some m : m ≠ "" → StrExt.truthy_opt (Some m) = true.
Proof. intros H. by apply truthy_true. Qed.

Lemma preferred_nonempty p : p ∈ preferred_models → p ≠ "".
Proof.
  intros Hin. assert (Hall : Forall (λ q, q ≠ "") preferred_models)
    by (repeat constructor; discriminate).
  by apply (proj1 (Forall_forall _ _) Hall).
Qed.

End stage_lemmas.



(** X8.  When the short name of the selection occurs in no available
    name, the alternatives go by the order of the preferred names, not by
    the order of the available ones: the model is the first available
    name in which the earliest preferred name that occurs at all occurs. *)
Theorem alternative_by_preference (available before after : list string)
    (model_name short p m : string) :
  short_name model_name = Some short →
  find (StrExt.contains short) available = None →
  preferred_models = before ++ p :: after →
  Forall (λ q, find (StrExt.contains q) available = None) before →
  find (StrExt.contains p) available = Some m →
  find_model available model_name
  = Some (Choice (Some m)
            [(Warning, "Model '" +:+ model_name
                       +:+ "' not found. Looking for alternative text models...");
             (Info, "Using alternative model: " +:+ m)]).
Proof.
  intros Hs Hnone Hpref Hbefore Hp.
  assert (Hm : m ≠ "").
  { apply find_elem_of in Hp as [_ Hc].
    apply (contains_nonempty p m); [|done].
    apply preferred_nonempty. rewrite Hpref.
    apply elem_of_app. right. apply list_elem_of_here. }
  rewrite (find_model_unfold _ _ _ Hs).
  rewrite (match_selection_short _ _ _ _ Hs), Hnone.
  unfold seek_alternatives. cbn [found_model notices StrExt.truthy_opt negb app].
  rewrite Hpref.
  rewrite (match_alternatives_first before p after available _ m) by done.
  apply truthy_opt_some in Hm.
  by rewrite take_first_found, report_none_found.
Qed.

Lemma alternative_by_preference_witness :
  find_model ["models/chat-bison-001"; "models/gemini-1.5-pro";
              "models/gemini-1.5-flash-8b"] "models/gpt"
  = Some (Choice (Some "models/gemini-1.5-flash-8b")
            [(Warning, "Model '" +:+ "models/gpt"
                       +:+ "' not found. Looking for alternative text models...");
             (Info, "Using alternative model: " +:+ "models/gemini-1.5-flash-8b")]).
Proof.
  apply (alternative_by_preference _ [] ["gemini-1.5-pro"; "text-bison"; "chat-bison"]
           _ "gpt" "gemini-1.5-flash").
  - vm_compute. reflexivity.
  - vm_compute. reflexivity.
  - reflexivity.
  - constructor.
  - vm_compute. reflexivity.
Defined.

(** X9.  When neither the short name of the selection nor any preferred
    name occurs in an available name, the model is the first available
    name, provided that name is not empty, after two warnings. *)
Theorem first_available_as_last_resort (first : string) (rest : list string)
    (model_name short : string) :
  short_name model_name = Some short →
  find (StrExt.contains short) (first :: rest) = None →
  Forall (λ q, find (StrExt.contains q) (first :: rest) = None) preferred_models →
  first ≠ "" →
  find_model (first :: rest) model_name
  = Some (Choice (Some first)
            [(Warning, "Model '" +:+ model_name
                       +:+ "' not found. Looking for alternative text models...");
             (Warning, "No preferred models found. Using first available model: "
                       +:+ first)]).
Proof.
  intros Hs Hnone Hpref Hfirst.
  rewrite (find_model_unfold _ _ _ Hs).
  rewrite (match_selection_short _ _ _ _ Hs), Hnone.
  unfold seek_alternatives. cbn [found_model notices StrExt.truthy_opt negb app].
  rewrite (match_alternatives_none _ _ _ Hpref) by done.
  apply truthy_opt_some in Hfirst.
  unfold take_first. cbn [found_model notices StrExt.truthy_opt negb app].
  by rewrite report_none_found.
Qed.

Lemma first_available_as_last_resort_witness :
  find_model ["models/embedding"; "models/aqa"] "models/gpt"
  = Some (Choice (Some "models/embedding")
            [(Warning, "Model '" +:+ "models/gpt"
                       +:+ "' not found. Looking for alternative text models...");
             (Warning, "No preferred models found. Using first available model: "
                       +:+ "models/embedding")]).
Proof.
  apply (first_available_as_last_resort _ _ _ "gpt").
  - vm_compute. reflexivity.
  - vm_compute. reflexivity.
  - repeat constructor.
  - discriminate.
Defined.

(** ** Rows of the CSV file *)

Section csv_lemmas.
Implicit Types (f s t rest : string) (fs fields : list string) (c : ascii).

Lemma read_end (m : Csv.mode) rest :
  m ≠ Csv.Quoted → Csv.field_end rest →
  Csv.read m rest = ("", Csv.fields_after rest).
Proof.
  intros Hm [->|[r ->]]; [done|].
  unfold Csv.fields_after, Csv.read_record.
  destruct m; try done; cbn [Csv.read];
    change (Ascii.eqb "," Csv.DQ) with false;
    change (Ascii.eqb "," ",") with true; cbn iota;
    by destruct (Csv.read Csv.Start r).
Qed.

Lemma special_false c :
  Csv.special c = false → Ascii.eqb c "," = false ∧ Ascii.eqb c Csv.DQ = false.
Proof.
  unfold Csv.special. intros H.
  apply orb_false_elim in H as [H _]. apply orb_false_elim in H as [H _].
  by apply orb_false_elim in H as [? ?].
Qed.

Lemma read_unquoted f rest :
  Csv.needs_quote f = false → Csv.field_end rest →
  Csv.read Csv.Unquoted (f +:+ rest) = (f, Csv.fields_after rest).
Proof.
  intros Hf Hrest. induction f as [|c f IH].
  - rewrite append_nil. by apply read_end.
  - cbn [Csv.needs_quote] in Hf. apply orb_false_elim in Hf as [Hc Hf].
    apply special_false in Hc as [Hcomma _].
    rewrite append_cons. cbn [Csv.read]. by rewrite Hcomma, (IH Hf).
Qed.

Lemma read_start_unquoted f rest :
  Csv.needs_quote f = false → Csv.field_end rest →
  Csv.read Csv.Start (f +:+ rest) = (f, Csv.fields_after rest).
Proof.
  intros Hf Hrest. destruct f as [|c f].
  - rewrite append_nil. by apply read_end.
  - cbn [Csv.needs_quote] in Hf. apply orb_false_elim in Hf as [Hc Hf].
    apply special_false in Hc as [Hcomma Hdq].
    rewrite append_cons. cbn [Csv.read].
    by rewrite Hcomma, Hdq, (read_unquoted f rest Hf Hrest).
Qed.

Lemma read_quoted f rest :
  Csv.field_end rest →
  Csv.read Csv.Quoted (Csv.double_quotes f +:+ String Csv.DQ rest)
  = (f, Csv.fields_after rest).
Proof.
  intros Hrest. induction f as [|c f IH].
  - rewrite append_nil. cbn [Csv.read]. rewrite Ascii.eqb_refl.
    by apply read_end.
  - cbn [Csv.double_quotes]. destruct (Ascii.eqb c Csv.DQ) eqn:Hc.
    + apply Ascii.eqb_eq in Hc as ->. rewrite !append_cons.
      cbn [Csv.read]. rewrite !Ascii.eqb_refl. by rewrite IH.
    + rewrite append_cons. cbn [Csv.read]. by rewrite Hc, IH.
Qed.

Lemma read_quote_field f rest :
  Csv.field_end rest →
  Csv.read Csv.Start (Csv.quote_field f +:+ rest) = (f, Csv.fields_after rest).
Proof.
  intros Hrest. unfold Csv.quote_field.
  destruct (Csv.needs_quote f) eqn:Hq; [|by apply read_start_unquoted].
  rewrite append_cons, append_assoc, append_cons, append_nil.
  cbn [Csv.read]. rewrite Ascii.eqb_refl. by apply read_quoted.
Qed.

Lemma read_join f fs :
  Csv.read Csv.Start (Csv.join_fields (Csv.quote_field <$> (f :: fs))) = (f, fs).
Proof.
  revert f. induction fs as [|g fs IH]; intros f.
  - cbn. rewrite <- (append_empty_r (Csv.quote_field f)).
    rewrite read_quote_field by (by left). done.
  - change (Csv.join_fields (Csv.quote_field <$> f :: g :: fs))
      with (Csv.quote_field f
            +:+ String "," (Csv.join_fields (Csv.quote_field <$> g :: fs))).
    rewrite read_quote_field by (right; by eexists).
    unfold Csv.fields_after, Csv.read_record. by rewrite IH.
Qed.

(** Reading a record gives back the fields that were written. *)
Lemma read_record_record fields :
  fields ≠ [] → Csv.read_record (Csv.record fields) = fields.
Proof.
  destruct fields as [|f fs]; [done|]. intros _.
  pose proof (read_join f fs) as Hj. unfold Csv.record.
  destruct (Csv.join_fields _) as [|c s] eqn:E; cbn [Str.truthy].
  - cbn in Hj. by injection Hj as <- <-.
  - unfold Csv.read_record. by rewrite Hj.
Qed.

Lemma record_nonempty fields : fields ≠ [] → Csv.record fields ≠ "".
Proof.
  destruct fields as [|f fs]; [done|]. intros _. unfold Csv.record.
  by destruct (Csv.join_fields _).
Qed.

Lemma append_inj_r s1 s2 t : s1 +:+ t = s2 +:+ t → s1 = s2.
Proof.
  revert s2. induction s1 as [|c s1 IH]; intros [|c2 s2] H; try done.
  - apply (f_equal String.length) in H.
    rewrite !append_length in H. cbn in H. lia.
  - apply (f_equal String.length) in H.
    rewrite !append_length in H. cbn in H. lia.
  - rewrite !append_cons in H. injection H as -> H. f_equal. by apply IH.
Qed.

Lemma record_inj fs1 fs2 : Csv.record fs1 = Csv.record fs2 → fs1 = fs2.
Proof.
  intros H. destruct fs1 as [|f1 fs1], fs2 as [|f2 fs2]; [done| | |].
  - symmetry in H. by apply record_nonempty in H.
  - by apply record_nonempty in H.
  - rewrite <- (read_record_record (f1 :: fs1)), <- (read_record_record (f2 :: fs2))
      by done.
    by rewrite H.
Qed.

End csv_lemmas.

(** X10.  Two rows are written alike only when they have the same
    fields: quoting loses nothing, whatever commas, quotes and line
    breaks the fields hold.  A field without comma, quote, carriage
    return and line feed is written as it is. *)
Theorem csv_row_injective (fields1 fields2 : list string) :
  Csv.writerow fields1 = Csv.writerow fields2 →
  fields1 = fields2
  ∧ Forall (λ f, Csv.needs_quote f = false → Csv.quote_field f = f) fields1.
Proof.
  unfold Csv.writerow. intros H%append_inj_r. split.
  - by apply record_inj.
  - apply Forall_forall. intros f _ Hf. unfold Csv.quote_field. by rewrite Hf.
Qed.

Lemma csv_row_injective_witness :
  ["a,b"; ""; "c"] = ["a,b"; ""; "c"]
  ∧ Forall (λ f, Csv.needs_quote f = false → Csv.quote_field f = f)
           ["a,b"; ""; "c"].
Proof.
  apply csv_row_injective. reflexivity.
Defined.

(** ** The export as a whole *)

Section export_lemmas.
Implicit Types (d r : gmap string string) (s : string) (c : ascii).

Lemma csv_headers_set : list_to_set csv_headers = field_keys.
Proof.
  apply set_eq. intros k. rewrite elem_of_list_to_set.
  unfold csv_headers, field_keys.
  rewrite !elem_of_cons, elem_of_nil, !elem_of_union, !elem_of_singleton.
  tauto.
Qed.

Lemma csv_headers_field_keys key : key ∈ csv_headers ↔ key ∈ field_keys.
Proof. by rewrite <- csv_headers_set, elem_of_list_to_set. Qed.

Lemma writeheader_row : dictwriter_writeheader csv_headers = Written header_row.
Proof. vm_compute. reflexivity. Qed.

Lemma dict_to_list_known fieldnames d :
  dom d ⊆ list_to_set fieldnames →
  dict_to_list fieldnames d
  = Written ((λ key, default "" (d !! key)) <$> fieldnames).
Proof.
  intros Hsub. unfold dict_to_list.
  destruct (decide _) as [_|Hne]; [done|].
  exfalso. apply Hne. apply set_eq. intros k.
  rewrite elem_of_difference. split.
  - intros [Hk Hnot]. exfalso. apply Hnot. by apply Hsub.
  - intros Hk. by apply elem_of_empty in Hk.
Qed.

Lemma dict_to_list_unknown fieldnames d k :
  k ∈ dom d → k ∉ fieldnames →
  dict_to_list fieldnames d = ValueError (dom d ∖ list_to_set fieldnames).
Proof.
  intros Hk Hnot. unfold dict_to_list.
  destruct (decide _) as [He|_]; [|done].
  exfalso. assert (k ∈ dom d ∖ list_to_set (C := gset string) fieldnames) as Hin.
  { apply elem_of_difference. split; [done|]. by rewrite elem_of_list_to_set. }
  rewrite He in Hin. by apply elem_of_empty in Hin.
Qed.

Lemma csv_text_known d :
  dom d ⊆ list_to_set csv_headers →
  csv_text d
  = Written (header_row
             +:+ Csv.writerow ((λ key, default "" (d !! key)) <$> csv_headers)).
Proof.
  intros Hsub. unfold csv_text, dictwriter_writerow.
  rewrite writeheader_row, (dict_to_list_known _ _ Hsub). done.
Qed.


Lemma utf8_decode_char c bs :
  utf8_decode (utf8_char c ++ bs) = String c (utf8_decode bs).
Proof. by destruct c as [[] [] [] [] [] [] [] []]. Qed.

Lemma utf8_round_trip s : utf8_decode (utf8_encode s) = s.
Proof.
  induction s as [|c s IH]; [done|].
  cbn [utf8_encode]. by rewrite utf8_decode_char, IH.
Qed.

Lemma utf8_encode_inj s1 s2 : utf8_encode s1 = utf8_encode s2 → s1 = s2.
Proof.
  intros H. by rewrite <- (utf8_round_trip s1), <- (utf8_round_trip s2), H.
Qed.

Lemma utf8_char_length c :
  1 ≤ length (utf8_char c) ≤ 2.
Proof. unfold utf8_char. destruct (_ <? _)%N; cbn; lia. Qed.

End export_lemmas.

Section pipeline_lemmas.
Implicit Types (d r : gmap string string) (s t : string).

Lemma parse_result_dom output_text :
  ∃ r, parse_analysis_output output_text = Ok r ∧ dom r = field_keys.
Proof.
  destruct (parse_lines_inv (Str.splitlines output_text))
    as (st & _ & [Hdom _] & Hparse).
  exists (Str.strip <$> parsed_result st). split; [done|].
  by rewrite dom_fmap_L.
Qed.

Lemma csv_data_record r :
  dom r = field_keys →
  csv_data r
  = Written (utf8_encode
               (header_row
                +:+ Csv.writerow ((λ key, default "" (r !! key)) <$> csv_headers))).
Proof.
  intros Hdom. unfold csv_data. rewrite csv_text_known; [done|].
  by rewrite Hdom, csv_headers_set.
Qed.

Lemma fmap_eq_pointwise {A B} (f g : A → B) (l : list A) :
  f <$> l = g <$> l → ∀ x, x ∈ l → f x = g x.
Proof.
  induction l as [|a l IH]; intros H x Hx; [by apply elem_of_nil in Hx|].
  cbn [fmap list_fmap] in H. injection H as Ha Hl.
  apply elem_of_cons in Hx as [->|Hx]; [done|]. by apply IH.
Qed.

Lemma ok_written_inj {A} (a b : A) :
  Ok (Written a) = Ok (Written b) → a = b.
Proof. by intros [= ->]. Qed.

Lemma append_inj_l s t1 t2 : s +:+ t1 = s +:+ t2 → t1 = t2.
Proof. apply (inj (String.append s)). Qed.

Lemma utf8_encode_length s :
  String.length s ≤ length (utf8_encode s) ≤ 2 * String.length s.
Proof.
  induction s as [|c s IH]; [cbn; lia|].
  cbn [utf8_encode String.length]. rewrite length_app.
  pose proof (utf8_char_length c). lia.
Qed.

End pipeline_lemmas.


(** X12.  A row with a key that is no field name is refused with
    ValueError, which names the keys that are none; nothing is offered
    for download. *)
Theorem export_rejects_unknown_key (d : gmap string string) (k : string) :
  k ∈ dom d → k ∉ csv_headers →
  csv_text d = ValueError (dom d ∖ list_to_set csv_headers)
  ∧ csv_data d = ValueError (dom d ∖ list_to_set csv_headers)
  ∧ k ∈ dom d ∖ list_to_set (C := gset string) csv_headers.
Proof.
  intros Hk Hnot.
  assert (Ht : csv_text d = ValueError (dom d ∖ list_to_set csv_headers)).
  { unfold csv_text, dictwriter_writerow.
    rewrite writeheader_row, (dict_to_list_unknown _ _ k Hk Hnot). done. }
  split; [exact Ht|]. split.
  - unfold csv_data. by rewrite Ht.
  - apply elem_of_difference. split; [done|]. by rewrite elem_of_list_to_set.
Qed.

Lemma export_rejects_unknown_key_witness :
  let d : gmap string string := {[ "VA_Definitions" := "foo"; "Notes" := "bar" ]} in
  csv_text d = ValueError (dom d ∖ list_to_set csv_headers)
  ∧ csv_data d = ValueError (dom d ∖ list_to_set csv_headers)
  ∧ "Notes" ∈ dom d ∖ list_to_set (C := gset string) csv_headers.
Proof.
  intros d. apply export_rejects_unknown_key.
  - apply (bool_decide_unpack _). vm_compute. exact I.
  - apply (bool_decide_unpack _). vm_compute. exact I.
Defined.

(** X13.  A row that lacks field names is written all the same: each
    missing field is an empty column.  The empty row gives eight commas. *)
Theorem export_missing_key_empty (d : gmap string string) :
  dom d ⊆ list_to_set csv_headers →
  csv_text d
  = Written (header_row
             +:+ Csv.writerow ((λ key, default "" (d !! key)) <$> csv_headers))
  ∧ (∀ key, d !! key = None → default "" (d !! key) = "")
  ∧ csv_text ∅ = Written (header_row +:+ ",,,,,,,," +:+ Csv.lineterminator).
Proof.
  intros Hsub. split; [by apply csv_text_known|]. split.
  - by intros key ->.
  - rewrite csv_text_known by (rewrite dom_empty_L; apply empty_subseteq).
    do 2 f_equal.
Qed.

Lemma export_missing_key_empty_witness :
  let d : gmap string string := {[ "VA_Definitions" := "foo" ]} in
  csv_text d
  = Written (header_row
             +:+ Csv.writerow ((λ key, default "" (d !! key)) <$> csv_headers))
  ∧ (∀ key, d !! key = None → default "" (d !! key) = "")
  ∧ csv_text ∅ = Written (header_row +:+ ",,,,,,,," +:+ Csv.lineterminator).
Proof.
  intros d. apply export_missing_key_empty.
  apply (bool_decide_unpack _). vm_compute. exact I.
Defined.

(** X14.  The download determines the parsed record: two texts of the
    model with the same download have the same parsed record. *)
Theorem download_determines_record (output_text1 output_text2 : string) :
  csv_of_output output_text1 = csv_of_output output_text2 →
  parse_analysis_output output_text1 = parse_analysis_output output_text2.
Proof.
  destruct (parse_result_dom output_text1) as (r1 & Hr1 & Hdom1).
  destruct (parse_result_dom output_text2) as (r2 & Hr2 & Hdom2).
  unfold csv_of_output. rewrite Hr1, Hr2. cbn [mbind result_bind].
  rewrite (csv_data_record r1 Hdom1), (csv_data_record r2 Hdom2).
  intros H%ok_written_inj%utf8_encode_inj%append_inj_l.
  unfold Csv.writerow in H. apply append_inj_r, record_inj in H.
  f_equal. apply map_eq. intros key.
  destruct (decide (key ∈ field_keys)) as [Hin|Hnin].
  - pose proof (fmap_eq_pointwise _ _ _ H key
                  (proj2 (csv_headers_field_keys key) Hin)) as Hk.
    cbn beta in Hk.
    assert (is_Some (r1 !! key)) as [v1 Hv1]
      by (apply elem_of_dom; by rewrite Hdom1).
    assert (is_Some (r2 !! key)) as [v2 Hv2]
      by (apply elem_of_dom; by rewrite Hdom2).
    rewrite Hv1, Hv2 in Hk |- *. cbn in Hk. by rewrite Hk.
  - rewrite (proj1 (not_elem_of_dom r1 key)), (proj1 (not_elem_of_dom r2 key));
      [done|by rewrite Hdom2|by rewrite Hdom1].
Qed.

Lemma download_determines_record_witness :
  parse_analysis_output (text_of ["Definitions:"; "- foo, bar"])
  = parse_analysis_output (text_of ["  definitions :"; ""; "* foo, bar  "]).
Proof.
  apply download_determines_record. vm_compute. reflexivity.
Defined.

(** X15.  The bytes of the download determine its text, and a text of
    code points below 256 takes one or two bytes per character. *)
Theorem utf8_encode_injective (s1 s2 : string) :
  utf8_encode s1 = utf8_encode s2 →
  s1 = s2
  ∧ String.length s1 ≤ length (utf8_encode s1) ≤ 2 * String.length s1.
Proof.
  intros H. split; [|apply utf8_encode_length].
  rewrite <- (utf8_round_trip s1), <- (utf8_round_trip s2). by rewrite H.
Qed.

Lemma utf8_encode_injective_witness :
  String "233" "t" = String "233" "t"
  ∧ String.length (String "233" "t")
    ≤ length (utf8_encode (String "233" "t"))
    ≤ 2 * String.length (String "233" "t").
Proof.
  apply utf8_encode_injective. reflexivity.
Defined.

(** ** The parser on the lines that count *)

Section content_lemmas.
Implicit Types (st : loop_state) (raw s t v w : string) (lines : list string).
Implicit Types (d : gmap string string).

Lemma loop_body_strip st raw : loop_body st (Str.strip raw) = loop_body st raw.
Proof. unfold loop_body. by rewrite strip_strip. Qed.

Lemma run_lines_content st lines :
  run_lines st (content_lines lines) = run_lines st lines.
Proof.
  revert st. induction lines as [|raw lines IH]; intros st; [done|].
  unfold content_lines. cbn [List.filter run_lines].
  destruct (blank raw) eqn:Hb; cbn [negb].
  - unfold blank in Hb. apply negb_true_iff, truthy_false in Hb.
    rewrite (loop_body_blank st raw Hb). cbn [mbind result_bind]. apply IH.
  - cbn [fmap list_fmap run_lines]. rewrite loop_body_strip.
    destruct (loop_body st raw) as [st'|k]; [|done]. apply IH.
Qed.

Lemma no_linebreak_only_lf s : no_linebreak s = true → only_lf s = true.
Proof.
  induction s as [|c s IH]; [done|]. cbn.
  intros [-> Hs]%andb_prop. by rewrite IH.
Qed.

Lemma only_lf_append s t :
  only_lf s = true → only_lf t = true → only_lf (s +:+ t) = true.
Proof.
  intros Hs Ht. induction s as [|c s IH]; [done|].
  rewrite append_cons. cbn in *. apply andb_prop in Hs as [-> Hs]. by apply IH.
Qed.

Lemma only_lf_lstrip s : only_lf s = true → only_lf (Str.lstrip s) = true.
Proof.
  induction s as [|c s IH]; [done|]. cbn [Str.lstrip].
  destruct (Char.isspace c); [|done]. cbn. by intros [_ Hs]%andb_prop; apply IH.
Qed.

Lemma only_lf_rstrip s : only_lf s = true → only_lf (Str.rstrip s) = true.
Proof.
  induction s as [|c s IH]; [done|]. cbn [Str.rstrip only_lf].
  intros [Hc Hs]%andb_prop. specialize (IH Hs).
  destruct (Str.rstrip s).
  - destruct (Char.isspace c); [done|]. cbn. by rewrite Hc.
  - cbn [only_lf] in *. by rewrite Hc, IH.
Qed.

Lemma only_lf_strip s : only_lf s = true → only_lf (Str.strip s) = true.
Proof. intros H. by apply only_lf_rstrip, only_lf_lstrip. Qed.

Lemma no_linebreak_tail s : no_linebreak s = true → no_linebreak (Str.tail s) = true.
Proof. destruct s; [done|]. cbn. by intros [_ ?]%andb_prop. Qed.

Lemma unbullet_no_linebreak s :
  no_linebreak s = true → no_linebreak (unbullet s) = true.
Proof.
  intros H. unfold unbullet. destruct (_ || _); [|done].
  by apply strip_no_linebreak, no_linebreak_tail.
Qed.

Lemma unbullet_strip_starts_space raw :
  starts_space (unbullet (Str.strip raw)) = false.
Proof.
  unfold unbullet. destruct (_ || _); apply strip_starts_space.
Qed.

(** What a round of the loop does to the record: nothing, or a new value
    under the current key made of the old one and the line. *)
Lemma loop_body_record st raw st' :
  loop_body st raw = Ok st' →
  parsed_result st' = parsed_result st
  ∨ ∃ key v, current_key st = Some key
             ∧ parsed_result st !! key = Some v
             ∧ parsed_result st'
               = <[key := append_line v (unbullet (Str.strip raw))]>
                   (parsed_result st).
Proof.
  unfold loop_body. destruct (negb _); [intros [= <-]; by left|].
  destruct (Pattern.header_pattern_match _); [intros [= <-]; by left|].
  unfold key_set. destruct (current_key st) as [key|]; [|intros [= <-]; by left].
  destruct (Str.truthy key); [|intros [= <-]; by left].
  unfold getitem. destruct (parsed_result st !! key) as [v|] eqn:Hv; [|done].
  cbn [mbind result_bind]. intros H. right. exists key, v.
  split; [done|]. split; [done|].
  unfold append_line, unbullet. by destruct (Str.truthy v); injection H as <-.
Qed.

Lemma append_line_extends v line : ∃ t, append_line v line = v +:+ t.
Proof.
  unfold append_line. destruct v as [|c v]; cbn [Str.truthy].
  - by exists line.
  - by eexists.
Qed.

Lemma loop_body_extends st raw st' :
  loop_body st raw = Ok st' → extends (parsed_result st) (parsed_result st').
Proof.
  intros [->|(key & v & _ & Hv & ->)]%loop_body_record; intros k w Hw.
  - exists "". by rewrite append_empty_r.
  - destruct (decide (k = key)) as [->|Hne].
    + rewrite lookup_insert_eq. rewrite Hv in Hw. injection Hw as <-.
      destruct (append_line_extends v (unbullet (Str.strip raw))) as [t ->].
      by exists t.
    + rewrite lookup_insert_ne by done. exists "". by rewrite append_empty_r.
Qed.

Lemma extends_trans d1 d2 d3 : extends d1 d2 → extends d2 d3 → extends d1 d3.
Proof.
  intros H12 H23 k v Hv. destruct (H12 k v Hv) as [t Ht].
  destruct (H23 k _ Ht) as [t' Ht']. exists (t +:+ t'). by rewrite <- append_assoc.
Qed.

Lemma run_lines_extends lines st st' :
  run_lines st lines = Ok st' → extends (parsed_result st) (parsed_result st').
Proof.
  revert st. induction lines as [|raw lines IH]; intros st.
  - intros [= <-] k v Hv. exists "". by rewrite append_empty_r.
  - cbn [run_lines]. destruct (loop_body st raw) as [st1|] eqn:Hb; [|done].
    cbn [mbind result_bind]. intros Hrun.
    eapply extends_trans; [by eapply loop_body_extends|by apply IH].
Qed.

Lemma loop_body_unspaced st raw st' :
  loop_body st raw = Ok st' →
  unspaced (parsed_result st) → unspaced (parsed_result st').
Proof.
  intros [->|(key & v & _ & Hv & ->)]%loop_body_record Hun; [done|].
  intros k w. destruct (decide (k = key)) as [->|Hne].
  - rewrite lookup_insert_eq. intros [= <-]. unfold append_line.
    destruct v as [|c v]; cbn [Str.truthy].
    + apply unbullet_strip_starts_space.
    + rewrite append_cons. by apply (Hun key (String c v)).
  - rewrite lookup_insert_ne by done. apply Hun.
Qed.

Lemma run_lines_unspaced lines st st' :
  run_lines st lines = Ok st' →
  unspaced (parsed_result st) → unspaced (parsed_result st').
Proof.
  revert st. induction lines as [|raw lines IH]; intros st.
  - by intros [= <-].
  - cbn [run_lines]. destruct (loop_body st raw) as [st1|] eqn:Hb; [|done].
    cbn [mbind result_bind]. intros Hrun Hun.
    apply (IH st1 Hrun). by eapply loop_body_unspaced.
Qed.

Lemma loop_body_lf_only st raw st' :
  no_linebreak raw = true →
  loop_body st raw = Ok st' →
  lf_only (parsed_result st) → lf_only (parsed_result st').
Proof.
  intros Hraw [->|(key & v & _ & Hv & ->)]%loop_body_record Hlf; [done|].
  intros k w. destruct (decide (k = key)) as [->|Hne].
  - rewrite lookup_insert_eq. intros [= <-].
    assert (Hline : only_lf (unbullet (Str.strip raw)) = true)
      by (by apply no_linebreak_only_lf, unbullet_no_linebreak, strip_no_linebreak).
    unfold append_line. destruct (Str.truthy v); [|done].
    apply only_lf_append; [by apply (Hlf key)|]. by apply only_lf_append.
  - rewrite lookup_insert_ne by done. apply Hlf.
Qed.

Lemma run_lines_lf_only lines st st' :
  Forall (λ raw, no_linebreak raw = true) lines →
  run_lines st lines = Ok st' →
  lf_only (parsed_result st) → lf_only (parsed_result st').
Proof.
  intros Hall. revert st. induction Hall as [|raw lines Hraw _ IH]; intros st.
  - by intros [= <-].
  - cbn [run_lines]. destruct (loop_body st raw) as [st1|] eqn:Hb; [|done].
    cbn [mbind result_bind]. intros Hrun Hlf.
    apply (IH st1 Hrun). by eapply loop_body_lf_only.
Qed.

Lemma initial_values k v : initial_result !! k = Some v → v = "".
Proof.
  rewrite initial_result_lookup. by destruct (decide _); intros [= <-].
Qed.

Lemma rstrip_append s t : ∃ u, Str.rstrip (s +:+ t) = Str.rstrip s +:+ u.
Proof.
  induction s as [|c s [u IH]].
  - by exists (Str.rstrip t).
  - rewrite append_cons. cbn [Str.rstrip]. rewrite IH.
    destruct (Str.rstrip s) as [|c' s'].
    + rewrite append_nil. destruct u as [|c'' u].
      * exists "". by rewrite append_empty_r.
      * destruct (Char.isspace c);
          [by exists (String c (String c'' u))|by exists (String c'' u)].
    + rewrite append_cons. by exists u.
Qed.

End content_lemmas.

(** X16.  The outcome of the parser depends on the input only through
    its lines that are not blank, each taken without the white space
    around it: blank lines and indentation change nothing. *)
Theorem parse_by_content_lines (output_text1 output_text2 : string) :
  content_lines (Str.splitlines output_text1)
  = content_lines (Str.splitlines output_text2) →
  parse_analysis_output output_text1 = parse_analysis_output output_text2.
Proof.
  intros H. unfold parse_analysis_output, parse_lines.
  rewrite <- (run_lines_content _ (Str.splitlines output_text1)).
  rewrite <- (run_lines_content _ (Str.splitlines output_text2)).
  by rewrite H.
Qed.

Lemma parse_by_content_lines_witness :
  parse_analysis_output
    (text_of ["Definitions:"; ""; "   - foo  "; "   "; "bar"; ""])
  = parse_analysis_output (text_of ["  Definitions: "; "- foo"; " bar"]).
Proof.
  apply parse_by_content_lines. vm_compute. reflexivity.
Defined.

(** X17.  In a field of the returned record the only line boundaries are
    the line feeds the parser put between the lines: no carriage return,
    form feed or other boundary of the input gets through. *)
Theorem parse_fields_lf_only (output_text key v : string) :
  field key (parse_analysis_output output_text) = Some v →
  only_lf v = true.
Proof.
  unfold parse_analysis_output.
  destruct (parse_lines_inv (Str.splitlines output_text))
    as (st & Hrun & _ & ->).
  cbn [field]. rewrite lookup_fmap.
  destruct (parsed_result st !! key) as [w|] eqn:Hw; [|done].
  intros [= <-]. apply only_lf_strip.
  assert (Hlf : lf_only (parsed_result st)).
  { apply (run_lines_lf_only (Str.splitlines output_text)
             (LoopState initial_result None) st); [|done|].
    - apply Forall_forall. intros raw. apply splitlines_no_linebreak.
    - intros k w' Hk. by rewrite (initial_values k w' Hk). }
  by apply (Hlf key).
Qed.

Lemma parse_fields_lf_only_witness :
  only_lf (text_of ["foo"; "bar"; "baz"]) = true.
Proof.
  apply (parse_fields_lf_only
           ("Definitions:" +:+ String Char.CR Str.nl +:+ "foo"
            +:+ String Char.CR "bar" +:+ String "012" "baz")
           "VA_Definitions").
  vm_compute. reflexivity.
Defined.

(** X18.  Further lines only add to what was parsed: each field of the
    outcome on the first lines of a text is the beginning of the same
    field of the outcome on all its lines. *)
Theorem parse_lines_prefix (lines more : list string) (key v : string) :
  field key (parse_lines lines) = Some v →
  ∃ t, field key (parse_lines (lines ++ more)) = Some (v +:+ t).
Proof.
  destruct (parse_lines_inv lines) as (st & Hrun & Hinv & Hparse).
  destruct (run_lines_inv more st Hinv) as (st' & Hmore & _).
  assert (Hall : run_lines (LoopState initial_result None) (lines ++ more) = Ok st')
    by (by rewrite run_lines_app, Hrun).
  rewrite Hparse, (field_parse_lines key _ _ Hall). cbn [field].
  rewrite lookup_fmap.
  destruct (parsed_result st !! key) as [w|] eqn:Hw; [|done].
  intros [= <-].
  destruct (run_lines_extends more st st' Hmore key w Hw) as [t Ht].
  rewrite Ht. cbn [fmap option_fmap option_map].
  assert (Hun : unspaced (parsed_result st')).
  { apply (run_lines_unspaced (lines ++ more)
             (LoopState initial_result None) st' Hall).
    intros k w' Hk. by rewrite (initial_values k w' Hk). }
  assert (Hw0 : starts_space w = false).
  { apply (run_lines_unspaced lines (LoopState initial_result None) st Hrun)
      with key; [|done].
    intros k w' Hk. by rewrite (initial_values k w' Hk). }
  unfold Str.strip.
  rewrite (lstrip_id _ (Hun key _ Ht)), (lstrip_id _ Hw0).
  destruct (rstrip_append w t) as [u ->]. by exists u.
Qed.

Lemma parse_lines_prefix_witness :
  ∃ t, field "VA_Definitions"
         (parse_lines (["Definitions:"; "foo"; "-"] ++ ["bar"; "Other:"; "baz"]))
       = Some ("foo" +:+ t).
Proof.
  apply parse_lines_prefix. vm_compute. reflexivity.
Defined.
